(** * Autoencoder file sorter: shape arithmetic and pipeline control flow

    A shallow embedding of [models/visual_models.py], [train.py] and
    [embedding.py].  Python integers are unbounded and are modelled by [Z];
    [//] is floor division and raises [ZeroDivisionError] on a zero divisor;
    Python exceptions are values of [exn] carried by the [result] monad. *)

From Stdlib Require Import ZArith Lia PrimFloat.
From stdpp Require Import base tactics option list strings pretty.

Local Open Scope Z_scope.

(** ** Python exceptions and the error monad *)

Inductive exn : Type :=
| ZeroDivisionError
| IndexError
| KeyError (key : string)
| ValueError (msg : string)
| UnboundLocalError (var : string)
| AttributeError (msg : string)
| RuntimeError (msg : string)
| TypeError.

Inductive result (A : Type) : Type :=
| Ok (a : A)
| Raise (e : exn).
Arguments Ok {A} a.
Arguments Raise {A} e.

#[global] Instance result_ret : MRet result := λ A a, Ok a.
#[global] Instance result_bind : MBind result := λ A B k r,
  match r with
  | Ok a => k a
  | Raise e => Raise e
  end.

(** [a // b] *)
Definition floordiv (a b : Z) : result Z :=
  if decide (b = 0) then Raise ZeroDivisionError else Ok (a `div` b).

(** [l[i]] for an index produced by [enumerate], hence never negative *)
Definition index {A : Type} (l : list A) (i : nat) : result A :=
  match l !! i with
  | Some x => Ok x
  | None => Raise IndexError
  end.

(** reading a local variable that an earlier statement may not have bound *)
Definition read_local {A : Type} (var : string) (v : option A) : result A :=
  match v with
  | Some x => Ok x
  | None => Raise (UnboundLocalError var)
  end.

(** ** [models/visual_models.py] *)

(** One entry of [filter_channel_sizes]: the tuple
    [(in_channels, out_channels, kernel_size, stride, padding)], read in the
    source by position ([filter_size[0]] ... [filter_size[4]]). *)
Record filter_size : Type := FilterSize {
  fs_0 : Z;  (* in_channels *)
  fs_1 : Z;  (* out_channels *)
  fs_2 : Z;  (* kernel_size *)
  fs_3 : Z;  (* stride *)
  fs_4 : Z   (* padding *)
}.

(** The [torch.nn] modules the constructor instantiates, each carrying the
    arguments it is built with.  [output_padding] is the Python [bool] the
    source passes, the value of [h_in != size_list[i + 1][0]]. *)
Inductive nn_module : Type :=
| BatchNorm2d (num_features : Z)
| Conv2d (in_channels out_channels kernel_size stride padding : Z) (bias : bool)
| Dropout (p : float)
| ReLU (inplace : bool)
| ConvTranspose2d (in_channels out_channels kernel_size stride padding : Z)
    (output_padding : bool) (bias : bool).

(** [nn.Sequential]: an ordered dictionary from names to modules. *)
Definition Sequential : Type := list (string * nn_module).

(** [seq.add_module(name, module)]: assignment into the ordered dictionary;
    an existing name keeps its position and gets the new module. *)
Fixpoint add_module (name : string) (m : nn_module) (seq : Sequential) : Sequential :=
  match seq with
  | [] => [(name, m)]
  | (name', m') :: rest =>
      if decide (name' = name) then (name', m) :: rest
      else (name', m') :: add_module name m rest
  end.

(** ["conv{}".format(i + 1)] and its siblings; [i] is an [enumerate] index *)
Definition format_name (prefix : string) (i : nat) : string :=
  prefix +:+ pretty (S i).

(** Local variables of [__init__] that live across iterations of the encoder
    loop.  [h_out] and [w_out] are unbound until the first iteration. *)
Record enc_locals : Type := EncLocals {
  l_encoder : Sequential;
  l_size_list : list (Z * Z);
  l_h_out : option Z;
  l_w_out : option Z
}.

Section init.
(** constructor arguments other than [filter_channel_sizes] *)
Variable name : string.
Variable in_channels : Z.
Variable in_size : Z * Z.
Variable dropout : bool.
Variable dropout_val : float.

(** body of [for i, filter_size in enumerate(filter_channel_sizes)] *)
Definition encoder_step (i : nat) (filter_size : filter_size)
    (st : enc_locals) : result enc_locals :=
  let in_channels := fs_0 filter_size in
  let out_channels := fs_1 filter_size in
  let kernel := fs_2 filter_size in
  let stride := fs_3 filter_size in
  let padding := fs_4 filter_size in
  let encoder := add_module (format_name "conv" i)
                   (Conv2d in_channels out_channels kernel stride padding false)
                   (l_encoder st) in
  '(h_out, w_out) ←
     (if decide (i = 0%nat) then
        h ← floordiv (in_size.1 + 2 * padding - (kernel - 1) - 1) stride;
        w ← floordiv (in_size.2 + 2 * padding - (kernel - 1) - 1) stride;
        mret (h + 1, w + 1)
      else
        h_prev ← read_local "h_out" (l_h_out st);
        h ← floordiv (h_prev + 2 * padding - (kernel - 1) - 1) stride;
        w_prev ← read_local "w_out" (l_w_out st);
        w ← floordiv (w_prev + 2 * padding - (kernel - 1) - 1) stride;
        mret (h + 1, w + 1));
  let size_list := l_size_list st ++ [(h_out, w_out)] in
  let encoder :=
    if dropout
    then add_module (format_name "dropout" i) (Dropout dropout_val) encoder
    else encoder in
  let encoder := add_module (format_name "relu" i) (ReLU true) encoder in
  mret (EncLocals encoder size_list (Some h_out) (Some w_out)).

Fixpoint encoder_loop (i : nat) (filter_channel_sizes : list filter_size)
    (st : enc_locals) : result enc_locals :=
  match filter_channel_sizes with
  | [] => mret st
  | filter_size :: rest =>
      st' ← encoder_step i filter_size st;
      encoder_loop (S i) rest st'
  end.

(** body of [for i, filter_size in enumerate(reversed(filter_channel_sizes))];
    [size_list] is the reversed list and is only read *)
Definition decoder_step (size_list : list (Z * Z)) (i : nat)
    (filter_size : filter_size) (decoder : Sequential) : result Sequential :=
  let in_channels := fs_1 filter_size in
  let out_channels := fs_0 filter_size in
  let stride := fs_3 filter_size in
  let kernel := fs_2 filter_size in
  let padding := fs_4 filter_size in
  size_i ← index size_list i;
  let h_in := (size_i.1 - 1) * stride - 2 * padding + (kernel - 1) + 1 in
  let w_in := (size_i.2 - 1) * stride - 2 * padding + (kernel - 1) + 1 in
  size_next ← index size_list (i + 1)%nat;
  let output_padding := bool_decide (h_in ≠ size_next.1) in
  let decoder := add_module (format_name "deconv" i)
                   (ConvTranspose2d in_channels out_channels kernel stride
                      padding output_padding false)
                   decoder in
  let decoder := add_module (format_name "relu" i) (ReLU true) decoder in
  mret decoder.

Fixpoint decoder_loop (size_list : list (Z * Z)) (i : nat)
    (filter_channel_sizes : list filter_size) (decoder : Sequential)
    : result Sequential :=
  match filter_channel_sizes with
  | [] => mret decoder
  | filter_size :: rest =>
      decoder' ← decoder_step size_list i filter_size decoder;
      decoder_loop size_list (S i) rest decoder'
  end.

(** The object under construction ([self]) *)
Record VisAutoEncoder : Type := MkVisAutoEncoder {
  self_in_size : Z * Z;
  self_name : string;
  self_encoder : Sequential;
  self_decoder : Sequential
}.

(** the locals on entry to the encoder loop *)
Definition enc_locals_0 : enc_locals :=
  let encoder := add_module "batchnorm1" (BatchNorm2d in_channels) [] in
  let size_list := [(in_size.1, in_size.2)] in
  EncLocals encoder size_list None None.

(** [VisAutoEncoder.__init__]: the constructed object together with the
    final value of the local [size_list] (already reversed).  The [print]
    call writes to standard output only and is left out. *)
Definition init_locals (filter_channel_sizes : list filter_size)
    : result (VisAutoEncoder * list (Z * Z)) :=
  st ← encoder_loop 0 filter_channel_sizes enc_locals_0;
  let size_list := reverse (l_size_list st) in
  decoder ← decoder_loop size_list 0 (reverse filter_channel_sizes) [];
  mret (MkVisAutoEncoder in_size name (l_encoder st) decoder, size_list).

(** [VisAutoEncoder(filter_channel_sizes, name, in_channels, in_size,
    dropout, dropout_val)]: the object [__init__] leaves behind.  The torch
    layers are recorded with the arguments the source gives them; what
    torch's own constructors refuse (a dropout probability outside [0, 1], a
    negative number of channels) is not modelled, so [Ok] says that the
    statements of [__init__] itself complete. *)
Definition init (filter_channel_sizes : list filter_size)
    : result VisAutoEncoder :=
  r ← init_locals filter_channel_sizes; mret r.1.
End init.

(** the constructor's default [dropout_val = 0.2] *)
#[warnings="-inexact-float"]
Definition default_dropout_val : float := 0.2%float.

(** the call in [test_autoencoder], with the constructor's default arguments *)
Definition test_filter_channel_sizes : list filter_size :=
  [FilterSize 3 128 7 1 4; FilterSize 128 256 3 2 2; FilterSize 256 512 3 2 2].

Definition test_autoencoder_model : result VisAutoEncoder :=
  init "default_model" 3 (256, 256) true default_dropout_val
    test_filter_channel_sizes.

(** ** The size formulas of the documentation

    The formulas the PyTorch documentation gives for the output size of
    [torch.nn.Conv2d] and [torch.nn.ConvTranspose2d] (dilation 1), to which
    the comments of the source point.  [module_size] reads the arguments of
    a module into them, counting the flag [output_padding] as 0 or 1 and
    applying it to both spatial dimensions.  They say which size a layer is
    built for; what calling a module does is [call_module] below. *)
Definition conv2d_out (kernel stride padding : Z) (n : Z) : Z :=
  (n + 2 * padding - (kernel - 1) - 1) `div` stride + 1.

Definition conv_transpose2d_out (kernel stride padding output_padding : Z)
    (n : Z) : Z :=
  (n - 1) * stride - 2 * padding + (kernel - 1) + output_padding + 1.

Definition module_size (m : nn_module) (s : Z * Z) : Z * Z :=
  match m with
  | Conv2d _ _ kernel stride padding _ =>
      (conv2d_out kernel stride padding s.1, conv2d_out kernel stride padding s.2)
  | ConvTranspose2d _ _ kernel stride padding output_padding _ =>
      (conv_transpose2d_out kernel stride padding (Z.b2z output_padding) s.1,
       conv_transpose2d_out kernel stride padding (Z.b2z output_padding) s.2)
  | BatchNorm2d _ | Dropout _ | ReLU _ => s
  end.

(** ** [forward]

    What a layer computes from a tensor is torch's business and is left
    open: [compute] is any function, possibly raising (a convolution refuses
    an input smaller than its kernel, for one).  What is modelled of torch is
    the one check that does not depend on the tensor. *)
Section forward.
Context {tensor : Type}.
Variable compute : nn_module → tensor → result tensor.

(** [module(x)].  [ConvTranspose2d.forward] hands [self.output_padding], the
    pair made of the constructor's argument, to [F.conv_transpose2d], which
    takes a tuple of ints there.  torch does not take a Python [bool] for an
    int, and the source always stores a [bool] (see [decoder_step]): the call
    raises [TypeError] before anything is computed. *)
Definition call_module (m : nn_module) (x : tensor) : result tensor :=
  match m with
  | ConvTranspose2d _ _ _ _ _ _ _ => Raise TypeError
  | _ => compute m x
  end.

(** [nn.Sequential.forward]: [for module in self: input = module(input)] *)
Fixpoint call_sequential (seq : Sequential) (x : tensor) : result tensor :=
  match seq with
  | [] => Ok x
  | (_, m) :: rest => y ← call_module m x; call_sequential rest y
  end.

(** [VisAutoEncoder.forward] *)
Definition forward (self : VisAutoEncoder) (x : tensor) : result tensor :=
  x ← call_sequential (self_encoder self) x;
  x ← call_sequential (self_decoder self) x;
  mret x.
End forward.

(** ** Reference descriptions the constructor is compared with *)

(** the Conv2d size formula applied to height and width *)
Definition conv2d_size (f : filter_size) (s : Z * Z) : Z * Z :=
  (conv2d_out (fs_2 f) (fs_3 f) (fs_4 f) s.1,
   conv2d_out (fs_2 f) (fs_3 f) (fs_4 f) s.2).

(** the sizes after 0, 1, ..., n convolutions *)
Fixpoint size_chain (fcs : list filter_size) (s : Z * Z) : list (Z * Z) :=
  s :: match fcs with
       | [] => []
       | f :: rest => size_chain rest (conv2d_size f s)
       end.

(** the modules one encoder iteration adds *)
Definition enc_block (dropout : bool) (dropout_val : float) (i : nat)
    (f : filter_size) : Sequential :=
  [(format_name "conv" i, Conv2d (fs_0 f) (fs_1 f) (fs_2 f) (fs_3 f) (fs_4 f) false)]
  ++ (if dropout then [(format_name "dropout" i, Dropout dropout_val)] else [])
  ++ [(format_name "relu" i, ReLU true)].

Fixpoint enc_blocks (dropout : bool) (dropout_val : float) (i : nat)
    (fcs : list filter_size) : Sequential :=
  match fcs with
  | [] => []
  | f :: rest =>
      enc_block dropout dropout_val i f ++ enc_blocks dropout dropout_val (S i) rest
  end.

(** the estimate of a transposed convolution's output without output padding *)
Definition deconv_estimate (f : filter_size) (n : Z) : Z :=
  (n - 1) * fs_3 f - 2 * fs_4 f + (fs_2 f - 1) + 1.

(** the modules one decoder iteration adds, reading the reversed size list *)
Definition dec_block (size_list : list (Z * Z)) (i : nat) (f : filter_size)
    : Sequential :=
  [(format_name "deconv" i,
    ConvTranspose2d (fs_1 f) (fs_0 f) (fs_2 f) (fs_3 f) (fs_4 f)
      (bool_decide (deconv_estimate f (size_list !!! i).1
                    ≠ (size_list !!! (i + 1)%nat).1))
      false);
   (format_name "relu" i, ReLU true)].

Fixpoint dec_blocks (size_list : list (Z * Z)) (i : nat)
    (fcs : list filter_size) : Sequential :=
  match fcs with
  | [] => []
  | f :: rest => dec_block size_list i f ++ dec_blocks size_list (S i) rest
  end.

(** every layer has a stride the floor division accepts *)
Definition strides_nonzero (fcs : list filter_size) : Prop :=
  Forall (λ f, fs_3 f ≠ 0) fcs.

(** ** Names of the modules *)

Definition layer_prefix (p : string) : Prop :=
  p ∈ ["conv"; "dropout"; "relu"; "deconv"].

(** no name with index [k] or above is taken yet *)
Definition fresh_from (k : nat) (seq : Sequential) : Prop :=
  ∀ p j, layer_prefix p → (k ≤ j)%nat → format_name p j ∉ seq.*1.

(** ** The constructor in closed form *)

(** [cur] is the size the next convolution of the encoder loop is applied to:
    [in_size] in the first iteration, the carried [h_out], [w_out] after it *)
Definition enc_current (in_size : Z * Z) (i : nat) (st : enc_locals)
    (cur : Z * Z) : Prop :=
  if decide (i = 0%nat) then cur = in_size
  else l_h_out st = Some cur.1 ∧ l_w_out st = Some cur.2.

Definition init_encoder (in_channels : Z) (dropout : bool) (dropout_val : float)
    (fcs : list filter_size) : Sequential :=
  ("batchnorm1", BatchNorm2d in_channels) :: enc_blocks dropout dropout_val 0 fcs.

Definition init_size_list (in_size : Z * Z) (fcs : list filter_size)
    : list (Z * Z) :=
  reverse (size_chain fcs in_size).

Definition init_decoder (in_size : Z * Z) (fcs : list filter_size) : Sequential :=
  dec_blocks (init_size_list in_size fcs) 0 (reverse fcs).

(** ** Kinds of modules *)

Definition is_batchnorm (m : nn_module) : bool :=
  match m with BatchNorm2d _ => true | _ => false end.
Definition is_dropout (m : nn_module) : bool :=
  match m with Dropout _ => true | _ => false end.
Definition is_conv_transpose (m : nn_module) : bool :=
  match m with ConvTranspose2d _ _ _ _ _ _ _ => true | _ => false end.

(** the modules of a [Sequential], in order *)
Definition modules (seq : Sequential) : list nn_module := seq.*2.

(** its transposed convolutions, in order *)
Definition conv_transposes (seq : Sequential) : list nn_module :=
  filter (λ m, is_conv_transpose m = true) (modules seq).

(** the modules an encoder iteration adds, without their names *)
Definition enc_layer (dropout : bool) (dropout_val : float) (f : filter_size)
    : list nn_module :=
  Conv2d (fs_0 f) (fs_1 f) (fs_2 f) (fs_3 f) (fs_4 f) false
  :: (if dropout then [Dropout dropout_val] else []) ++ [ReLU true].

(** the transposed convolution decoder iteration [i] adds *)
Definition dec_layer (size_list : list (Z * Z)) (i : nat) (f : filter_size)
    : nn_module :=
  ConvTranspose2d (fs_1 f) (fs_0 f) (fs_2 f) (fs_3 f) (fs_4 f)
    (bool_decide (deconv_estimate f (size_list !!! i).1
                  ≠ (size_list !!! (i + 1)%nat).1))
    false.

(** * The pipeline: [train.py] and [embedding.py]

    Both files are orchestration over torch, pandas, scikit-learn and the
    repository's own [options] and [util.dataloader] modules, none of which
    is part of the sources.  Their operations are fields of the class
    [Library]: each is an arbitrary function that may raise, so that what is
    proved holds whatever those operations do.  (Each is called in one state
    of the world only, the encoder and decoder after training and in
    evaluation mode, so a function of the arguments describes it.)  The
    handful of pandas operations that only rearrange columns are modelled
    concretely on [DataFrame].  Calls whose order the claims speak about are
    recorded as [event]s; printing and progress bars are left out. *)

(** ** Options *)

(** [opt.visual_aa_args], the keyword arguments handed to the constructor;
    a missing key leaves the constructor's default *)
Record visual_aa_args_t : Type := VisualAAArgs {
  kw_name : option string;
  kw_in_channels : option Z;
  kw_in_size : option (Z * Z);
  kw_dropout : option bool;
  kw_dropout_val : option float
}.

(** the attributes of an [Options] instance the two files read *)
Record Options : Type := MkOptions {
  visual_aa : list filter_size;
  visual_aa_args : visual_aa_args_t;
  epoch_num : Z;
  batch_size : Z;
  regularize : bool;
  lll_neighbors : Z;
  n_clusters : Z
}.

(** [opt.batch_size = v] *)
Definition set_batch_size (v : Z) (opt : Options) : Options :=
  MkOptions (visual_aa opt) (visual_aa_args opt) (epoch_num opt) v
    (regularize opt) (lll_neighbors opt) (n_clusters opt).

(** [VisAutoEncoder(opt.visual_aa, **opt.visual_aa_args)] *)
Definition construct (opt : Options) : result VisAutoEncoder :=
  let kw := visual_aa_args opt in
  init (default "default_model" (kw_name kw))
    (default 3 (kw_in_channels kw))
    (default (256, 256) (kw_in_size kw))
    (default true (kw_dropout kw))
    (default default_dropout_val (kw_dropout_val kw))
    (visual_aa opt).

(** ** Data frames *)

Inductive cell : Type :=
| CStr (s : string)
| CFloat (x : float)
| CInt (z : Z).

#[global] Instance cell_inhabited : Inhabited cell := populate (CInt 0).

(** a two-dimensional array, row by row *)
Abbreviation ndarray := (list (list cell)).

Inductive label : Type :=
| LStr (s : string)
| LInt (z : Z).

#[global] Instance label_eq_dec : EqDecision label.
Proof. solve_decision. Defined.

(** A frame: the index holds one tuple of level values per row, and every
    column holds one value per row. *)
Record DataFrame : Type := MkDataFrame {
  df_index : list (list cell);
  df_index_names : list (option string);
  df_multi : bool;
  df_columns : list (label * list cell)
}.

Definition df_nrows (df : DataFrame) : nat := length (df_index df).
Definition df_labels (df : DataFrame) : list label := (df_columns df).*1.

(** [d[k] = v] on an insertion-ordered dictionary *)
Fixpoint dict_set {K V : Type} `{EqDecision K} (k : K) (v : V)
    (d : list (K * V)) : list (K * V) :=
  match d with
  | [] => [(k, v)]
  | (k', v') :: rest =>
      if decide (k' = k) then (k', v) :: rest
      else (k', v') :: dict_set k v rest
  end.

Fixpoint dict_get {K V : Type} `{EqDecision K} (k : K) (d : list (K * V))
    : option V :=
  match d with
  | [] => None
  | (k', v) :: rest => if decide (k' = k) then Some v else dict_get k rest
  end.

(** [df.to_numpy()]: the values row by row, without the index *)
Definition row_values (df : DataFrame) (i : nat) : list cell :=
  omap (λ col, col.2 !! i) (df_columns df).

Definition to_numpy (df : DataFrame) : ndarray :=
  imap (λ i _, row_values df i) (df_index df).

(** [df[name] = values] *)
Definition setitem_column (name : label) (values : list cell) (df : DataFrame)
    : result DataFrame :=
  if decide (length values = df_nrows df)
  then Ok (MkDataFrame (df_index df) (df_index_names df) (df_multi df)
             (dict_set name values (df_columns df)))
  else Raise (ValueError "Length of values does not match length of index").

(** column [k] of a two-dimensional array, [values[:, k]] *)
Definition array_column (k : nat) (values : ndarray) : list cell :=
  (λ row, row !!! k) <$> values.


(** [df[names] = values] for a two-dimensional array *)
Definition setitem_columns (names : list label) (values : ndarray)
    (df : DataFrame) : result DataFrame :=
  if decide (Forall (λ row, length row = length names) values
             ∧ length values = df_nrows df)
  then Ok (MkDataFrame (df_index df) (df_index_names df) (df_multi df)
             (foldl (λ cols kn, dict_set kn.2 (array_column kn.1 values) cols)
                (df_columns df) (imap (λ k n, (k, n)) names)))
  else Raise (ValueError "Columns must be same length as key").

(** [df[names]] *)
Fixpoint select_columns (names : list label) (cols : list (label * list cell))
    : result (list (label * list cell)) :=
  match names with
  | [] => Ok []
  | n :: rest =>
      match dict_get n cols with
      | Some v => sel ← select_columns rest cols; mret ((n, v) :: sel)
      | None => Raise (KeyError "not in index")
      end
  end.

Definition getitem_columns (names : list label) (df : DataFrame)
    : result DataFrame :=
  sel ← select_columns names (df_columns df);
  mret (MkDataFrame (df_index df) (df_index_names df) (df_multi df) sel).

(** [df.columns = names] *)
Definition set_columns (names : list label) (df : DataFrame) : result DataFrame :=
  if decide (length names = length (df_columns df))
  then Ok (MkDataFrame (df_index df) (df_index_names df) (df_multi df)
             (zip names (df_columns df).*2))
  else Raise (ValueError "Length mismatch").

(** the column names [reset_index] gives the index levels: a level's own
    name, else [level_k] in a MultiIndex, else [index] (or [level_0] when a
    column [index] exists) *)
Definition level_names (df : DataFrame) : list string :=
  imap (λ k nm,
          match nm with
          | Some s => s
          | None =>
              if df_multi df then "level_" +:+ pretty k
              else if decide (LStr "index" ∈ df_labels df) then "level_0"
                   else "index"
          end)
       (df_index_names df).

(** [df.reset_index()]: the index levels become the leading columns and the
    rows are numbered afresh *)
Definition reset_index (df : DataFrame) : result DataFrame :=
  let names := level_names df in
  if decide (Exists (λ nm, LStr nm ∈ df_labels df) names)
  then Raise (ValueError "cannot insert, already exists")
  else
    Ok (MkDataFrame (imap (λ i _, [CInt (Z.of_nat i)]) (df_index df))
          [None] false
          (imap (λ k nm, (LStr nm, (λ t, t !!! k) <$> df_index df)) names
           ++ df_columns df)).

(** the frame of embeddings [generate_embeddings] assembles from the
    encodings, the embedded coordinates and the cluster labels (the
    statements under "making a dataframe of embeddings") *)
Definition make_embeddings_frame (encodings : DataFrame) (embeds : ndarray)
    (labels : list Z) : result DataFrame :=
  encodings ← setitem_columns
                 [LStr "embeddings_x"; LStr "embeddings_y"; LStr "embeddings_z"]
                 embeds encodings;
  reset ← reset_index encodings;
  embeddings ← getitem_columns
                  [LStr "level_0"; LStr "embeddings_x"; LStr "embeddings_y";
                   LStr "embeddings_z"] reset;
  embeddings ← setitem_column (LStr "labels") (CInt <$> labels) embeddings;
  set_columns
    [LStr "path"; LStr "embeddings_x"; LStr "embeddings_y"; LStr "embeddings_z";
     LStr "labels"] embeddings.

(** ** Datasets and the library interface *)

(** [datas.dataset]: its [mode] and its [data] frame *)
Record Dataset : Type := MkDataset {
  mode : string;
  data : DataFrame
}.

(** a data loader: its dataset and the batches it yields, each with the path
    that [return_path = True] adds *)
Record loader (tensor path : Type) : Type := MkLoader {
  dataset : Dataset;
  batches : list (tensor * path)
}.
Arguments MkLoader {tensor path} dataset batches.
Arguments dataset {tensor path} l.
Arguments batches {tensor path} l.

Class Library : Type := {
  (** torch tensors and numpy arrays *)
  tensor : Type;
  (** what the loader yields as [path] *)
  path : Type;
  path_eq_dec :: EqDecision path;
  (** [dl.DataLoader(opt, return_path)] *)
  DataLoader : Options → bool → result (loader tensor path);
  (** [dataset.join_new_col(frame)] *)
  join_new_col : Dataset → DataFrame → result Dataset;
  (** [model.encoder(x)], [model.decoder(x)] *)
  module_forward : Sequential → tensor → result tensor;
  (** one training iteration on a batch: zero_grad, forward, the loss with
      its optional [l_n_reg] penalty, backward and the optimizer step *)
  training_step : VisAutoEncoder → Options → tensor → result ();
  (** [model.load_state_dict(torch.load(file))] *)
  load_state_dict : VisAutoEncoder → string → result ();
  (** [x.to(device)] *)
  tensor_to : tensor → result tensor;
  (** [x.shape] *)
  tensor_shape : tensor → list Z;
  (** [x.sum(dim = dims)] *)
  tensor_sum : tensor → list Z → result tensor;
  (** [x.reshape(shape)] *)
  tensor_reshape : tensor → list Z → result tensor;
  (** [pd.DataFrame(data = d).T] *)
  DataFrame_T : list (path * tensor) → result DataFrame;
  (** [pd.read_csv(file)] *)
  read_csv : string → result DataFrame;
  (** [locally_linear_embedding(X, n_neighbors, n_components)] *)
  locally_linear_embedding : ndarray → Z → Z → result (ndarray * float);
  (** [k_means(X, n_clusters)]: centroids, labels, inertia *)
  k_means : ndarray → Z → result (list tensor * list Z * float)
}.

(** ** Recorded calls *)

Inductive event : Type :=
| EvConstruct (self : VisAutoEncoder)
| EvTrainStep (epoch : Z) (i : nat)
| EvSave (file : string)
| EvLoadState (file : string)
| EvEncode
| EvLLE (n_neighbors n_components : Z)
| EvKMeans (n_clusters : Z)
| EvDecode (i : nat)
| EvToCsv (file : string) (df : DataFrame).

(** a computation that appends to the record of calls and may raise *)
Definition io (A : Type) : Type := list event → result A * list event.

#[global] Instance io_ret : MRet io := λ A a log, (Ok a, log).
#[global] Instance io_bind : MBind io := λ A B k m log,
  match m log with
  | (Ok a, log') => k a log'
  | (Raise e, log') => (Raise e, log')
  end.

Definition emit (e : event) : io () := λ log, (Ok (), log ++ [e]).
Definition lift {A : Type} (r : result A) : io A := λ log, (r, log).
Definition raise {A : Type} (e : exn) : io A := lift (Raise e).

(** [for x in l: body] threading the loop's local variables [s] *)
Fixpoint for_fold {A S : Type} (body : S → A → io S) (s : S) (l : list A)
    : io S :=
  match l with
  | [] => mret s
  | x :: rest => s' ← body s x; for_fold body s' rest
  end.

(** [enumerate(l)] *)
Definition enumerate {A : Type} (l : list A) : list (nat * A) :=
  imap (λ i x, (i, x)) l.

Section pipeline.
Context `{L : Library}.

(** ** [train.py] *)

(** [model.save()]: [save_path + self.name + ".pt"] *)
Definition save_file (self : VisAutoEncoder) : string :=
  "ckpts/" +:+ self_name self +:+ ".pt".

Definition train (opt : Options) : io VisAutoEncoder :=
  datas ← lift (DataLoader opt false);
  model ←
    (if decide (mode (dataset datas) = "image") then
       model ← lift (construct opt);
       emit (EvConstruct model);;
       mret model
     else
       raise (AttributeError (mode (dataset datas) +:+ " mode is not supported")));
  for_fold (λ _ epoch,
      for_fold (λ _ '(i, (data, _)),
          data ← lift (tensor_to data);
          emit (EvTrainStep epoch i);;
          lift (training_step model opt data))
        () (enumerate (batches datas));;
      emit (EvSave (save_file model)))
    () (seqZ 1 (epoch_num opt));;
  mret model.

(** ** [embedding.py] *)

Definition encode_image (model : VisAutoEncoder) (image : tensor)
    (quick : bool) : result (tensor * list Z) :=
  encoding ← module_forward (self_encoder model) image;
  let encoding_vector := encoding in
  let initial_shape : option (list Z) := None in
  '(encoding_vector, initial_shape) ←
     (if quick then
        encoding_vector ← tensor_sum encoding_vector [1; 2];
        mret (encoding_vector, initial_shape)
      else
        let initial_shape := tensor_shape encoding_vector in
        encoding_vector ← tensor_reshape encoding_vector [-1];
        mret (encoding_vector, Some initial_shape));
  initial_shape ← read_local "initial_shape" initial_shape;
  mret (encoding_vector, initial_shape).

Definition decode_images (centroid_list : list tensor) (out_shape : list Z)
    (model : VisAutoEncoder) : io (list (string * tensor)) :=
  for_fold (λ image_list '(i, encoded_image),
      encoded_image ← lift (tensor_reshape encoded_image out_shape);
      _ ← lift (tensor_to encoded_image);
      emit (EvDecode i);;
      image ← lift (module_forward (self_decoder model) encoded_image);
      let name := "label_" +:+ pretty i in
      mret (dict_set name image image_list))
    [] (enumerate centroid_list).

(** the locals the encoding loop binds *)
Record enc_loop_locals : Type := EncLoopLocals {
  el_encodings : list (path * tensor);
  el_encoding : option tensor;
  el_initial_shape : option (list Z)
}.

(** [generate_embeddings(retrain, reencode, quick)].  [opt] is the value of
    [Options()]; [ckpt_exists] and [encodings_exist] are the answers of
    [os.path.exists] for ["ckpts/default_model.pt"] and
    ["data/encodings.csv"]. *)
Definition generate_embeddings (opt : Options)
    (ckpt_exists encodings_exist : bool) (retrain reencode quick : bool)
    : io (loader tensor path * option (list (string * tensor))) :=
  model ←
    (if retrain || negb ckpt_exists then train opt
     else
       model ← lift (construct opt);
       emit (EvConstruct model);;
       emit (EvLoadState "ckpts/default_model.pt");;
       lift (load_state_dict model "ckpts/default_model.pt");;
       mret model);
  let opt := set_batch_size 1 opt in
  datas ← lift (DataLoader opt true);
  '(encodings, initial_shape) ←
    (if reencode || negb encodings_exist then
       st ← for_fold (λ st '(data, path),
               data ← lift (tensor_to data);
               emit EvEncode;;
               '(encoding, initial_shape) ← lift (encode_image model data quick);
               mret (EncLoopLocals (dict_set path encoding (el_encodings st))
                       (Some encoding) (Some initial_shape)))
             (EncLoopLocals [] None None) (batches datas);
       encodings ← lift (DataFrame_T (el_encodings st));
       lift (read_local "encoding" (el_encoding st));;
       lift (read_local "initial_shape" (el_initial_shape st));;
       emit (EvToCsv "data/encodings.csv" encodings);;
       mret (encodings, el_initial_shape st)
     else
       encodings ← lift (read_csv "data/encodings.csv");
       mret (encodings, None));
  let encodings_np := to_numpy encodings in
  emit (EvLLE (lll_neighbors opt) 3);;
  '(embeds, err) ← lift (locally_linear_embedding encodings_np (lll_neighbors opt) 3);
  emit (EvKMeans (n_clusters opt));;
  '(centroids, labels, inertia) ← lift (k_means encodings_np (n_clusters opt));
  label_images ←
    (if reencode && negb quick then
       initial_shape ← lift (read_local "initial_shape" initial_shape);
       label_images ← decode_images centroids initial_shape model;
       mret (Some label_images)
     else mret None);
  embeddings ← lift (make_embeddings_frame encodings embeds labels);
  dataset' ← lift (join_new_col (dataset datas) embeddings);
  emit (EvToCsv "data/embeddings.csv" (data dataset'));;
  mret (MkLoader dataset' (batches datas), label_images).
End pipeline.

(** every call a computation records satisfies [P] *)
Definition emits {A} (P : event → Prop) (m : io A) : Prop :=
  ∀ log r log', m log = (r, log') → ∃ new, log' = log ++ new ∧ Forall P new.

(** ** A shape-level interpretation of the library

    Tensors are their shapes, frames hold zeros, every path is a string.
    It serves to run the pipeline on concrete inputs.  It is a stand-in and
    not torch: its layers return the sizes of the documentation's formulas,
    and its transposed convolutions take the flag [output_padding] as a
    number instead of raising as [call_module] does. *)

(** the shape this stand-in gives a module's output *)
Definition module_shape (m : nn_module) (shape : list Z) : result (list Z) :=
  match shape with
  | [n; c; h; w] =>
      let s := module_size m (h, w) in
      match m with
      | Conv2d ic oc _ _ _ _ | ConvTranspose2d ic oc _ _ _ _ _ =>
          if decide (c = ic) then Ok [n; oc; s.1; s.2]
          else Raise (RuntimeError "channel mismatch")
      | BatchNorm2d _ | Dropout _ | ReLU _ => Ok shape
      end
  | _ => Raise (ValueError "expected 4D input")
  end.

Definition sequential_shape (seq : Sequential) (shape : list Z) : result (list Z) :=
  foldl (λ r nm, shape ← r; module_shape nm.2 shape) (Ok shape) seq.

(** the shape of [x.sum(dim = dims)]: the listed axes disappear *)
Definition sum_shape (dims : list Z) (shape : list Z) : list Z :=
  omap id (imap (λ i n, if decide (Z.of_nat i ∈ dims) then None else Some n) shape).

(** the shape of [x.reshape(new)], where a single [-1] stands for all elements *)
Definition reshape_shape (new : list Z) (shape : list Z) : list Z :=
  if decide (new = [-1]) then [foldr Z.mul 1 shape] else new.

Definition zero_frame (paths : list string) (width : nat) : DataFrame :=
  MkDataFrame ((λ p, [CStr p]) <$> paths) [None] true
    (imap (λ k _, (LInt (Z.of_nat k), replicate (length paths) (CFloat 0%float)))
       (replicate width ())).

Definition shape_library_of (dataset_mode : string) : Library := {|
  tensor := list Z;
  path := string;
  DataLoader := λ _ _,
    Ok (MkLoader (MkDataset dataset_mode (zero_frame ["a.png"; "b.png"] 0))
          [([1; 3; 8; 8], "a.png"); ([1; 3; 8; 8], "b.png")]);
  join_new_col := λ ds df, Ok (MkDataset (mode ds) df);
  module_forward := sequential_shape;
  training_step := λ _ _ _, Ok ();
  load_state_dict := λ _ _, Ok ();
  tensor_to := λ x, Ok x;
  tensor_shape := λ x, x;
  tensor_sum := λ x dims, Ok (sum_shape dims x);
  tensor_reshape := λ x new, Ok (reshape_shape new x);
  DataFrame_T := λ d,
    Ok (zero_frame d.*1 (Z.to_nat (default 0 (head (default [] (head d.*2))))));
  read_csv := λ _, Ok (MkDataFrame [[CInt 0]; [CInt 1]] [None] false
                         [(LStr "Unnamed: 0", [CStr "a.png"; CStr "b.png"]);
                          (LStr "0", [CFloat 0%float; CFloat 0%float])]);
  locally_linear_embedding := λ X _ n_components,
    Ok ((λ _, replicate (Z.to_nat n_components) (CFloat 0%float)) <$> X, 0%float);
  k_means := λ X n_clusters,
    if decide (0 < n_clusters)
    then Ok (replicate (Z.to_nat n_clusters) [Z.of_nat (length (default [] (head X)))],
             (λ _, 0) <$> X, 0%float)
    else Raise (ValueError "n_clusters should be at least 1")
|}.

Definition shape_library : Library := shape_library_of "image".

(** a small configuration: one convolution on 8 x 8 images, two epochs,
    three clusters *)
Definition test_options : Options :=
  MkOptions [FilterSize 3 4 3 2 1]
    (VisualAAArgs None None (Some (8, 8)) None None) 2 1 false 5 3.


(** ** Descriptions used by the further properties *)

(** what a convolution leaves uncovered of an input of length [n]: the
    remainder of [n + 2 * padding - (kernel - 1) - 1] by the stride *)
Definition conv_remainder (f : filter_size) (n : Z) : Z :=
  (n + 2 * fs_4 f - (fs_2 f - 1) - 1) `mod` fs_3 f.

(** [getattr(seq, name)]: the module registered under a name *)
Definition get_module (name : string) (seq : Sequential) : option nn_module :=
  dict_get name seq.

(** the calls one epoch of [train] records: a step per batch, then the save *)
Definition epoch_events {A : Type} (file : string) (batches : list A)
    (epoch : Z) : list event :=
  imap (λ i _, EvTrainStep epoch i) batches ++ [EvSave file].

(** ** [l_n_reg]

    The tensors of the loss are kept abstract: [zero] is
    [torch.tensor(0.)], [add] the tensor addition and [norm] is
    [torch.norm(param, norm)]. *)

(** ['weight' in name] *)
Fixpoint contains (needle s : string) : bool :=
  String.prefix needle s
  || match s with
     | EmptyString => false
     | String _ s' => contains needle s'
     end.

Section l_n_reg.
Context {T P : Type}.
Variable zero : T.
Variable add : T → T → T.
Variable torch_norm : P → Z → T.

(** [l_n_reg(model, device, norm)] on [model.named_parameters()] *)
Definition l_n_reg (named_parameters : list (string * P)) (norm : Z) : T :=
  foldl (λ reg_loss np,
           if contains "weight" np.1
           then add reg_loss (torch_norm np.2 norm)
           else reg_loss)
        zero named_parameters.
End l_n_reg.

(** the shape-level library with a training step that always fails *)
Definition failing_step_library : Library := {|
  tensor := list Z;
  path := string;
  DataLoader := DataLoader (Library := shape_library);
  join_new_col := join_new_col (Library := shape_library);
  module_forward := module_forward (Library := shape_library);
  training_step := λ _ _ _, Raise (RuntimeError "out of memory");
  load_state_dict := load_state_dict (Library := shape_library);
  tensor_to := tensor_to (Library := shape_library);
  tensor_shape := tensor_shape (Library := shape_library);
  tensor_sum := tensor_sum (Library := shape_library);
  tensor_reshape := tensor_reshape (Library := shape_library);
  DataFrame_T := DataFrame_T (Library := shape_library);
  read_csv := read_csv (Library := shape_library);
  locally_linear_embedding := locally_linear_embedding (Library := shape_library);
  k_means := k_means (Library := shape_library)
|}.

(** a centroid that reshapes, moves to the device and decodes into [img] *)
Definition decodes_to `{L : Library} (out_shape : list Z) (model : VisAutoEncoder)
    (centroid img : tensor) : Prop :=
  ∃ reshaped,
    tensor_reshape centroid out_shape = Ok reshaped
    ∧ (∃ moved, tensor_to reshaped = Ok moved)
    ∧ module_forward (self_decoder model) reshaped = Ok img.

(** ** What a returning run of [generate_embeddings] went through *)









(** * Properties of the constructor *)

Example test_autoencoder_sizes :
  init_locals "default_model" 3 (256, 256) true default_dropout_val
      test_filter_channel_sizes
    ≫= (λ r, mret r.2)
  = Ok [(66, 66); (130, 130); (258, 258); (256, 256)].
Proof. vm_compute. reflexivity. Qed.

Ltac solve_prefix := unfold layer_prefix; rewrite !elem_of_cons; tauto.

Lemma format_name_inj p q i j :
  layer_prefix p → layer_prefix q →
  format_name p i = format_name q j → p = q ∧ i = j.
Proof.
  unfold layer_prefix, format_name. intros Hp Hq.
  repeat (apply elem_of_cons in Hp as [->|Hp]);
    repeat (apply elem_of_cons in Hq as [->|Hq]);
    try (by apply elem_of_nil in Hp); try (by apply elem_of_nil in Hq);
    cbn [String.append]; intros Heq; try discriminate;
    (split; [done|]); by simplify_eq.
Qed.

Lemma format_name_not_batchnorm p i :
  layer_prefix p → format_name p i ≠ "batchnorm1".
Proof.
  unfold layer_prefix, format_name. intros Hp.
  repeat (apply elem_of_cons in Hp as [->|Hp]);
    try (by apply elem_of_nil in Hp); cbn [String.append]; discriminate.
Qed.

Lemma add_module_fresh name m seq :
  name ∉ seq.*1 → add_module name m seq = seq ++ [(name, m)].
Proof.
  induction seq as [|[name' m'] seq IH]; cbn; [done|].
  intros Hni. apply not_elem_of_cons in Hni as [Hne Hni].
  rewrite decide_False by done. by rewrite IH.
Qed.

Lemma fresh_from_app k seq name m :
  fresh_from k seq → (∃ p i, layer_prefix p ∧ name = format_name p i ∧ (i < k)%nat) →
  fresh_from k (seq ++ [(name, m)]).
Proof.
  intros Hf (p & i & Hp & -> & Hlt) q j Hq Hj.
  rewrite fmap_app, elem_of_app. intros [Hin|Hin]; [by eapply Hf|].
  cbn in Hin. apply list_elem_of_singleton in Hin.
  apply format_name_inj in Hin as [_ ->]; [lia|done..].
Qed.

Lemma fresh_from_mono k k' seq :
  (k ≤ k')%nat → fresh_from k seq → fresh_from k' seq.
Proof. intros Hle Hf p j Hp Hj. apply Hf; [done|lia]. Qed.

(** ** The size chain *)

Lemma size_chain_length fcs s : length (size_chain fcs s) = S (length fcs).
Proof.
  revert s. induction fcs as [|f fcs IH]; intros s; cbn; [done|].
  by rewrite IH.
Qed.

Lemma size_chain_head fcs s : size_chain fcs s !! 0%nat = Some s.
Proof. by destruct fcs. Qed.

Lemma size_chain_step fcs s i f :
  fcs !! i = Some f →
  ∃ x, size_chain fcs s !! i = Some x
       ∧ size_chain fcs s !! S i = Some (conv2d_size f x).
Proof.
  revert s i. induction fcs as [|g fcs IH]; intros s i Hf; [done|].
  destruct i as [|i]; cbn in Hf.
  - simplify_eq. exists s. split; [done|]. cbn. apply size_chain_head.
  - destruct (IH (conv2d_size g s) i Hf) as (x & Hx & Hx'). by exists x.
Qed.

(** ** The encoder loop *)

Section init_facts.
Variable name : string.
Variable in_channels : Z.
Variable in_size : Z * Z.
Variable dropout : bool.
Variable dropout_val : float.

Local Abbreviation enc_block' := (enc_block dropout dropout_val).
Local Abbreviation enc_blocks' := (enc_blocks dropout dropout_val).
Local Abbreviation encoder_step' := (encoder_step in_size dropout dropout_val).
Local Abbreviation encoder_loop' := (encoder_loop in_size dropout dropout_val).
Local Abbreviation enc_current := (enc_current in_size).
Local Abbreviation init_encoder := (init_encoder in_channels dropout dropout_val).
Local Abbreviation init_size_list := (init_size_list in_size).
Local Abbreviation init_decoder := (init_decoder in_size).

Lemma floordiv_nonzero a b : b ≠ 0 → floordiv a b = Ok (a `div` b).
Proof. intros Hb. unfold floordiv. by rewrite decide_False. Qed.

Lemma encoder_step_spec i f st cur :
  fs_3 f ≠ 0 → enc_current i st cur → fresh_from i (l_encoder st) →
  encoder_step' i f st
  = Ok (EncLocals (l_encoder st ++ enc_block' i f)
          (l_size_list st ++ [conv2d_size f cur])
          (Some (conv2d_size f cur).1) (Some (conv2d_size f cur).2)).
Proof.
  intros Hs Hcur Hfresh. unfold encoder_step, enc_current in *.
  assert (Hconv : format_name "conv" i ∉ (l_encoder st).*1).
  { apply Hfresh; [|done]. solve_prefix. }
  assert (Hdrop : format_name "dropout" i
                  ∉ (l_encoder st ++ [(format_name "conv" i,
                       Conv2d (fs_0 f) (fs_1 f) (fs_2 f) (fs_3 f) (fs_4 f) false)]).*1).
  { rewrite fmap_app, not_elem_of_app. split.
    - apply Hfresh; [|done]. solve_prefix.
    - cbn. rewrite list_elem_of_singleton. unfold format_name. cbn. discriminate. }
  rewrite (add_module_fresh _ _ _ Hconv).
  assert (∀ e : Sequential,
    format_name "relu" i ∉ (l_encoder st).*1 →
    (∀ q m, (q, m) ∈ e → q ≠ format_name "relu" i) →
    add_module (format_name "relu" i) (ReLU true) (l_encoder st ++ e)
    = l_encoder st ++ e ++ [(format_name "relu" i, ReLU true)]) as Hrelu.
  { intros e Hni He. rewrite add_module_fresh; [by rewrite <- (assoc_L (++))|].
    rewrite fmap_app, not_elem_of_app. split; [done|].
    intros ([q m] & Heq & Hin)%list_elem_of_fmap. cbn in Heq. subst q.
    by eapply He. }
  assert (Hr : format_name "relu" i ∉ (l_encoder st).*1).
  { apply Hfresh; [|done]. solve_prefix. }
  assert ((if decide (i = 0%nat)
           then h ← floordiv (in_size.1 + 2 * fs_4 f - (fs_2 f - 1) - 1) (fs_3 f);
                w ← floordiv (in_size.2 + 2 * fs_4 f - (fs_2 f - 1) - 1) (fs_3 f);
                mret (h + 1, w + 1)
           else h_prev ← read_local "h_out" (l_h_out st);
                h ← floordiv (h_prev + 2 * fs_4 f - (fs_2 f - 1) - 1) (fs_3 f);
                w_prev ← read_local "w_out" (l_w_out st);
                w ← floordiv (w_prev + 2 * fs_4 f - (fs_2 f - 1) - 1) (fs_3 f);
                mret (h + 1, w + 1))
          = Ok (conv2d_size f cur)) as ->.
  { destruct (decide (i = 0%nat)).
    - subst cur. by rewrite !floordiv_nonzero.
    - destruct Hcur as [-> ->]. cbn. by rewrite !floordiv_nonzero. }
  cbn. unfold enc_block. destruct dropout.
  - rewrite (add_module_fresh _ _ _ Hdrop). rewrite <- (assoc_L (++)).
    rewrite Hrelu; [done..|].
    intros q m. rewrite elem_of_app, !list_elem_of_singleton.
    intros [?|?]; simplify_eq; unfold format_name; cbn; discriminate.
  - rewrite Hrelu; [done..|].
    intros q m. rewrite list_elem_of_singleton.
    intros ?; simplify_eq; unfold format_name; cbn; discriminate.
Qed.

Lemma fresh_from_enc_block i e f :
  fresh_from i e → fresh_from (S i) (e ++ enc_block' i f).
Proof.
  intros Hf%(fresh_from_mono i (S i)); [|lia].
  unfold enc_block. destruct dropout; rewrite ?app_nil_l, !(assoc_L (++));
    repeat (apply fresh_from_app; [|eexists _, i; split_and!; [|done|lia]; solve_prefix]);
    done.
Qed.

Lemma encoder_loop_spec fcs i st cur :
  strides_nonzero fcs → enc_current i st cur → fresh_from i (l_encoder st) →
  ∃ st', encoder_loop' i fcs st = Ok st'
         ∧ l_encoder st' = l_encoder st ++ enc_blocks' i fcs
         ∧ l_size_list st' = l_size_list st ++ tail (size_chain fcs cur).
Proof.
  revert i st cur. induction fcs as [|f fcs IH]; intros i st cur Hs Hcur Hfresh.
  - exists st. cbn. by rewrite !app_nil_r.
  - apply Forall_cons in Hs as [Hf Hs]. cbn [encoder_loop].
    rewrite (encoder_step_spec i f st cur) by done. cbn [mbind result_bind].
    match goal with
    | |- context [encoder_loop _ _ _ (S i) fcs ?st1] =>
        destruct (IH (S i) st1 (conv2d_size f cur) Hs) as (st' & Hrun & Henc & Hsz);
          [| |exists st'; split; [exact Hrun|]]
    end.
    + unfold enc_current. by rewrite decide_False by lia.
    + by apply fresh_from_enc_block.
    + rewrite Henc, Hsz. cbn. split; [by rewrite <- (assoc_L (++))|].
      rewrite <- (assoc_L (++)). do 2 f_equal. by destruct fcs.
Qed.

(** a zero stride makes the floor division of the size formula raise *)
Lemma encoder_loop_zero_stride fcs i st cur :
  ¬ strides_nonzero fcs → enc_current i st cur → fresh_from i (l_encoder st) →
  encoder_loop' i fcs st = Raise ZeroDivisionError.
Proof.
  revert i st cur. induction fcs as [|f fcs IH]; intros i st cur Hs Hcur Hfresh.
  - destruct Hs. constructor.
  - cbn [encoder_loop]. destruct (decide (fs_3 f = 0)) as [Hz|Hnz].
    + unfold encoder_step, enc_current in *. rewrite Hz.
      destruct (decide (i = 0%nat)); [done|]. by destruct Hcur as [-> ->].
    + rewrite (encoder_step_spec i f st cur) by done. cbn [mbind result_bind].
      apply (IH _ _ (conv2d_size f cur)).
      * intros Hs'. apply Hs. by constructor.
      * unfold enc_current. by rewrite decide_False by lia.
      * by apply fresh_from_enc_block.
Qed.

Lemma enc_locals_0_fresh : fresh_from 0 (l_encoder (enc_locals_0 in_channels in_size)).
Proof.
  intros p j Hp _. cbn. rewrite list_elem_of_singleton.
  by apply format_name_not_batchnorm.
Qed.

(** ** The decoder loop *)

Lemma fresh_from_dec_block sl i e f :
  fresh_from i e → fresh_from (S i) (e ++ dec_block sl i f).
Proof.
  intros Hf%(fresh_from_mono i (S i)); [|lia].
  unfold dec_block. rewrite (cons_middle _ e), !(assoc_L (++)).
  repeat (apply fresh_from_app; [|eexists _, i; split_and!; [|done|lia]; solve_prefix]).
  done.
Qed.

Lemma decoder_step_spec sl i f dec :
  (S i < length sl)%nat → fresh_from i dec →
  decoder_step sl i f dec = Ok (dec ++ dec_block sl i f).
Proof.
  intros Hlen Hfresh. unfold decoder_step, index.
  rewrite (list_lookup_lookup_total_lt sl i) by lia.
  rewrite (list_lookup_lookup_total_lt sl (i + 1)) by lia.
  cbn [mbind result_bind mret result_ret].
  rewrite (add_module_fresh (format_name "deconv" i)).
  2:{ apply Hfresh; [solve_prefix|done]. }
  rewrite add_module_fresh.
  2:{ rewrite fmap_app, not_elem_of_app. split.
      - apply Hfresh; [solve_prefix|done].
      - cbn. rewrite list_elem_of_singleton. unfold format_name. cbn. discriminate. }
  by rewrite <- (assoc_L (++)).
Qed.

Lemma decoder_loop_spec sl fs i dec :
  (i + length fs < length sl)%nat → fresh_from i dec →
  decoder_loop sl i fs dec = Ok (dec ++ dec_blocks sl i fs).
Proof.
  revert i dec. induction fs as [|f fs IH]; intros i dec Hlen Hfresh; cbn in *.
  - by rewrite app_nil_r.
  - rewrite decoder_step_spec by (done || lia). cbn [mbind result_bind].
    rewrite IH; [by rewrite <- (assoc_L (++))|lia|].
    by apply fresh_from_dec_block.
Qed.

(** ** The constructor in closed form *)

Lemma encoder_loop_init fcs :
  strides_nonzero fcs →
  ∃ st, encoder_loop' 0 fcs (enc_locals_0 in_channels in_size) = Ok st
        ∧ l_encoder st = init_encoder fcs
        ∧ l_size_list st = size_chain fcs in_size.
Proof.
  intros Hs.
  destruct (encoder_loop_spec fcs 0 (enc_locals_0 in_channels in_size) in_size Hs)
    as (st & Hrun & Henc & Hsz); [done|apply enc_locals_0_fresh|].
  exists st. split_and!; [done..|]. rewrite Hsz. cbn.
  destruct in_size. by destruct fcs.
Qed.

Lemma init_locals_spec fcs :
  strides_nonzero fcs →
  init_locals name in_channels in_size dropout dropout_val fcs
  = Ok (MkVisAutoEncoder in_size name (init_encoder fcs) (init_decoder fcs),
        init_size_list fcs).
Proof.
  intros Hs. unfold init_locals.
  destruct (encoder_loop_init fcs Hs) as (st & -> & Henc & Hsz).
  cbn [mbind result_bind]. rewrite Hsz, Henc.
  rewrite decoder_loop_spec; [done| |intros p j _ _; apply not_elem_of_nil].
  rewrite !length_reverse, size_chain_length. lia.
Qed.

Lemma init_locals_zero_stride fcs :
  ¬ strides_nonzero fcs →
  init_locals name in_channels in_size dropout dropout_val fcs
  = Raise ZeroDivisionError.
Proof.
  intros Hs. unfold init_locals.
  by rewrite (encoder_loop_zero_stride fcs 0 _ in_size Hs);
    [| |apply enc_locals_0_fresh].
Qed.

Lemma init_locals_inv fcs self sl :
  init_locals name in_channels in_size dropout dropout_val fcs = Ok (self, sl) →
  strides_nonzero fcs
  ∧ self = MkVisAutoEncoder in_size name (init_encoder fcs) (init_decoder fcs)
  ∧ sl = init_size_list fcs.
Proof.
  intros Hrun. destruct (decide (strides_nonzero fcs)) as [Hs|Hs].
  - rewrite init_locals_spec in Hrun by done. by simplify_eq.
  - by rewrite init_locals_zero_stride in Hrun.
Qed.
End init_facts.

Lemma modules_enc_blocks dropout dropout_val i fcs :
  modules (enc_blocks dropout dropout_val i fcs)
  = fcs ≫= enc_layer dropout dropout_val.
Proof.
  revert i. induction fcs as [|f fcs IH]; intros i; [done|].
  unfold modules in *. cbn [enc_blocks]. rewrite fmap_app, IH.
  cbn [mbind list_bind]. f_equal. unfold enc_block, enc_layer.
  by destruct dropout.
Qed.

Lemma modules_dec_blocks sl i fs :
  modules (dec_blocks sl i fs)
  = imap (λ k f, dec_layer sl (i + k) f) fs ≫= (λ m, [m; ReLU true]).
Proof.
  revert i. induction fs as [|f fs IH]; intros i; [done|].
  unfold modules in *. cbn [dec_blocks imap]. rewrite fmap_app, IH.
  rewrite Nat.add_0_r.
  change ((dec_block sl i f).*2) with [dec_layer sl i f; ReLU true].
  cbn [mbind list_bind app]. do 3 f_equal.
  apply imap_ext. intros k g _. unfold compose. f_equal. lia.
Qed.

Lemma conv_transposes_dec_blocks sl i fs :
  conv_transposes (dec_blocks sl i fs) = imap (λ k f, dec_layer sl (i + k) f) fs.
Proof.
  revert i. induction fs as [|f fs IH]; intros i; [done|].
  unfold conv_transposes, modules in *. cbn [dec_blocks imap].
  rewrite fmap_app, filter_app, IH, Nat.add_0_r.
  change (filter _ (dec_block sl i f).*2) with [dec_layer sl i f].
  cbn [app]. f_equal. apply imap_ext. intros k g _. unfold compose. f_equal. lia.
Qed.

Lemma length_dec_blocks sl i fs : length (dec_blocks sl i fs) = (2 * length fs)%nat.
Proof.
  revert i. induction fs as [|f fs IH]; intros i; [done|].
  cbn [dec_blocks]. rewrite length_app, IH. cbn. lia.
Qed.

Lemma modules_dec_blocks_lookup sl fs k :
  modules (dec_blocks sl 0 fs) !! (2 * k)%nat = dec_layer sl k <$> fs !! k
  ∧ modules (dec_blocks sl 0 fs) !! (2 * k + 1)%nat = (λ _, ReLU true) <$> fs !! k.
Proof.
  rewrite modules_dec_blocks.
  cut (∀ i,
    (imap (λ j f, dec_layer sl (i + j) f) fs ≫= (λ m, [m; ReLU true])) !! (2 * k)%nat
      = dec_layer sl (i + k) <$> fs !! k
    ∧ (imap (λ j f, dec_layer sl (i + j) f) fs ≫= (λ m, [m; ReLU true])) !! (2 * k + 1)%nat
      = (λ _, ReLU true) <$> fs !! k).
  { intros Hcut. apply (Hcut 0%nat). }
  revert k. induction fs as [|f fs IH]; intros k i; [done|].
  cbn [imap mbind list_bind app]. destruct k as [|k].
  - cbn. by rewrite Nat.add_0_r.
  - replace (2 * S k)%nat with (S (S (2 * k))) by lia.
    replace (S (S (2 * k)) + 1)%nat with (S (S (2 * k + 1))) by lia.
    cbn [lookup list_lookup]. unfold list_lookup.
    rewrite (imap_ext _ (λ j g, dec_layer sl (S i + j) g)).
    2:{ intros j g _. unfold compose. f_equal. lia. }
    replace (i + S k)%nat with (S i + k)%nat by lia. apply IH.
Qed.

Lemma init_inv name in_channels in_size dropout dropout_val fcs self :
  init name in_channels in_size dropout dropout_val fcs = Ok self →
  strides_nonzero fcs
  ∧ init_locals name in_channels in_size dropout dropout_val fcs
    = Ok (self, init_size_list in_size fcs)
  ∧ self = MkVisAutoEncoder in_size name
             (init_encoder in_channels dropout dropout_val fcs)
             (init_decoder in_size fcs).
Proof.
  unfold init. intros Hrun.
  destruct (init_locals name in_channels in_size dropout dropout_val fcs)
    as [[self' sl]|e] eqn:Hloc; [|done].
  pose proof (init_locals_inv _ _ _ _ _ _ _ _ Hloc) as (Hs & -> & ->).
  cbn in Hrun. unfold mret, result_ret in Hrun. by simplify_eq.
Qed.

Lemma init_spec name in_channels in_size dropout dropout_val fcs :
  strides_nonzero fcs →
  init name in_channels in_size dropout dropout_val fcs
  = Ok (MkVisAutoEncoder in_size name
          (init_encoder in_channels dropout dropout_val fcs)
          (init_decoder in_size fcs)).
Proof. intros Hs. unfold init. by rewrite init_locals_spec. Qed.

Lemma lookup_total_fst (sl : list (Z * Z)) i : (sl !!! i).1 = sl.*1 !!! i.
Proof.
  rewrite !list_lookup_total_alt, list_lookup_fmap. by destruct (sl !! i).
Qed.

Lemma dec_blocks_heights sl sl' i fs :
  sl.*1 = sl'.*1 → dec_blocks sl i fs = dec_blocks sl' i fs.
Proof.
  intros Heq. revert i. induction fs as [|f fs IH]; intros i; [done|].
  cbn [dec_blocks]. rewrite IH. f_equal. unfold dec_block.
  by rewrite !lookup_total_fst, Heq.
Qed.

Lemma size_chain_heights fcs h w w' :
  (size_chain fcs (h, w)).*1 = (size_chain fcs (h, w')).*1.
Proof.
  revert h w w'. induction fcs as [|f fcs IH]; intros h w w'; [done|].
  cbn [size_chain fmap list_fmap]. f_equal. apply IH.
Qed.

(** ** The constructor's claims *)

(** C2: during construction with an n-layer specification list the encoder
    loop completes (every stride being nonzero, so that the floor division
    of the size formula is defined) and leaves a size list of length n+1
    whose first entry is the input size (H, W) and whose entry i+1 is obtained
    from entry i by
    [out = ((in + 2*padding - (kernel - 1) - 1) // stride) + 1],
    applied to height and width separately, for every layer. *)
Theorem size_list_recorded in_channels H W dropout dropout_val fcs :
  strides_nonzero fcs →
  ∃ st,
    encoder_loop (H, W) dropout dropout_val 0 fcs (enc_locals_0 in_channels (H, W))
    = Ok st
    ∧ length (l_size_list st) = S (length fcs)
    ∧ l_size_list st !! 0%nat = Some (H, W)
    ∧ ∀ i f, fcs !! i = Some f →
        ∃ h w,
          l_size_list st !! i = Some (h, w)
          ∧ l_size_list st !! S i
            = Some ((h + 2 * fs_4 f - (fs_2 f - 1) - 1) `div` fs_3 f + 1,
                    (w + 2 * fs_4 f - (fs_2 f - 1) - 1) `div` fs_3 f + 1).
Proof.
  intros Hs.
  destruct (encoder_loop_init in_channels (H, W) dropout dropout_val fcs Hs)
    as (st & Hrun & _ & Hsz).
  exists st. rewrite Hsz. split_and!.
  - done.
  - apply size_chain_length.
  - apply size_chain_head.
  - intros i f Hf.
    destruct (size_chain_step fcs (H, W) i f Hf) as ([h w] & Hi & HSi).
    by exists h, w.
Qed.

Lemma size_list_recorded_witness :
  ∃ st,
    encoder_loop (256, 256) true default_dropout_val 0 test_filter_channel_sizes
      (enc_locals_0 3 (256, 256)) = Ok st
    ∧ length (l_size_list st) = 4%nat
    ∧ l_size_list st !! 0%nat = Some (256, 256)
    ∧ ∀ i f, test_filter_channel_sizes !! i = Some f →
        ∃ h w,
          l_size_list st !! i = Some (h, w)
          ∧ l_size_list st !! S i
            = Some ((h + 2 * fs_4 f - (fs_2 f - 1) - 1) `div` fs_3 f + 1,
                    (w + 2 * fs_4 f - (fs_2 f - 1) - 1) `div` fs_3 f + 1).
Proof.
  apply (size_list_recorded 3 256 256 true default_dropout_val
           test_filter_channel_sizes).
  unfold strides_nonzero, test_filter_channel_sizes.
  repeat (constructor; [cbn; lia|]). constructor.
Defined.

(** C3: for an n-layer specification list the decoder holds exactly n
    transposed convolutions, and the i-th of them (from 0 here) is built from
    the kernel size, stride and padding of specification n-1-i, with that
    specification's input and output channel counts swapped. *)
Theorem decoder_mirrors_encoder name in_channels in_size dropout dropout_val fcs self :
  init name in_channels in_size dropout dropout_val fcs = Ok self →
  length (conv_transposes (self_decoder self)) = length fcs
  ∧ ∀ i f, (i < length fcs)%nat → fcs !! (length fcs - 1 - i)%nat = Some f →
      ∃ output_padding,
        conv_transposes (self_decoder self) !! i
        = Some (ConvTranspose2d (fs_1 f) (fs_0 f) (fs_2 f) (fs_3 f) (fs_4 f)
                  output_padding false).
Proof.
  intros (_ & _ & ->)%init_inv. cbn [self_decoder]. unfold init_decoder.
  rewrite conv_transposes_dec_blocks. split.
  - by rewrite length_imap, length_reverse.
  - intros i f Hi Hf. rewrite list_lookup_imap, reverse_lookup by done.
    replace (length fcs - S i)%nat with (length fcs - 1 - i)%nat by lia.
    rewrite Hf. cbn. unfold dec_layer. eauto.
Qed.

Lemma decoder_mirrors_encoder_witness :
  ∃ self, test_autoencoder_model = Ok self
    ∧ length (conv_transposes (self_decoder self)) = 3%nat
    ∧ ∀ i f, (i < 3)%nat → test_filter_channel_sizes !! (3 - 1 - i)%nat = Some f →
        ∃ output_padding,
          conv_transposes (self_decoder self) !! i
          = Some (ConvTranspose2d (fs_1 f) (fs_0 f) (fs_2 f) (fs_3 f) (fs_4 f)
                    output_padding false).
Proof.
  eexists. split; [vm_compute; reflexivity|].
  apply (decoder_mirrors_encoder "default_model" 3 (256, 256) true
           default_dropout_val test_filter_channel_sizes).
  vm_compute. reflexivity.
Defined.

Lemma Forall_modules_dec_blocks sl i fs :
  Forall (λ m, is_dropout m = false ∧ is_batchnorm m = false)
    (modules (dec_blocks sl i fs)).
Proof.
  revert i. induction fs as [|f fs IH]; intros i; [constructor|].
  unfold modules in *. cbn [dec_blocks]. rewrite fmap_app, Forall_app.
  split; [|apply IH]. by repeat constructor.
Qed.

(** C9: in every constructed autoencoder the encoder starts with the module
    ["batchnorm1"], a BatchNorm2d over the constructor's [in_channels]; after
    it each specification contributes its convolution, then a dropout module
    exactly when the [dropout] flag is set, then a ReLU.  The decoder has 2n
    modules, a transposed convolution at every even position and a ReLU at
    every odd one, and none of them is a dropout or batch-norm module,
    whatever the flag. *)
Theorem dropout_only_in_encoder name in_channels in_size dropout dropout_val fcs self :
  init name in_channels in_size dropout dropout_val fcs = Ok self →
  head (self_encoder self) = Some ("batchnorm1", BatchNorm2d in_channels)
  ∧ modules (self_encoder self)
    = BatchNorm2d in_channels
      :: (fcs ≫= λ f, Conv2d (fs_0 f) (fs_1 f) (fs_2 f) (fs_3 f) (fs_4 f) false
                      :: (if dropout then [Dropout dropout_val] else [])
                      ++ [ReLU true])
  ∧ length (self_decoder self) = (2 * length fcs)%nat
  ∧ (∀ k, (k < length fcs)%nat →
       (∃ m, modules (self_decoder self) !! (2 * k)%nat = Some m
             ∧ is_conv_transpose m = true)
       ∧ modules (self_decoder self) !! (2 * k + 1)%nat = Some (ReLU true))
  ∧ Forall (λ m, is_dropout m = false ∧ is_batchnorm m = false)
      (modules (self_decoder self)).
Proof.
  intros (_ & _ & ->)%init_inv. cbn [self_encoder self_decoder].
  unfold init_encoder, init_decoder. split_and!.
  - done.
  - unfold modules. cbn [fmap list_fmap]. f_equal. apply modules_enc_blocks.
  - by rewrite length_dec_blocks, length_reverse.
  - intros k Hk.
    destruct (modules_dec_blocks_lookup (init_size_list in_size fcs) (reverse fcs) k)
      as [-> ->].
    destruct (reverse fcs !! k) as [f|] eqn:Hf.
    + split; [|done]. by eexists.
    + apply lookup_ge_None in Hf. rewrite length_reverse in Hf. lia.
  - apply Forall_modules_dec_blocks.
Qed.

Lemma dropout_only_in_encoder_witness :
  ∃ self, test_autoencoder_model = Ok self
    ∧ head (self_encoder self) = Some ("batchnorm1", BatchNorm2d 3)
    ∧ length (self_decoder self) = 6%nat
    ∧ Forall (λ m, is_dropout m = false ∧ is_batchnorm m = false)
        (modules (self_decoder self)).
Proof.
  eexists. split; [vm_compute; reflexivity|].
  pose proof (dropout_only_in_encoder "default_model" 3 (256, 256) true
                default_dropout_val test_filter_channel_sizes) as Hthm.
  edestruct Hthm as (Hhead & _ & Hlen & _ & Hall); [vm_compute; reflexivity|].
  split_and!; [exact Hhead|exact Hlen|exact Hall].
Defined.

(** C8: for decoder layer i the [output_padding] handed to the i-th
    transposed convolution has integer value 0 or 1, and it is 1 exactly when
    the estimate [(size_list[i][0] - 1) * stride - 2 * padding + kernel]
    differs from the recorded height [size_list[i + 1][0]], where [size_list]
    is the reversed list of encoder sizes.  The widths are not consulted: the
    same decoder is built whatever the input width, and the one value applies
    to both spatial dimensions of the layer's output size. *)
Theorem output_padding_from_height name in_channels H W dropout dropout_val fcs
    self size_list :
  init_locals name in_channels (H, W) dropout dropout_val fcs = Ok (self, size_list) →
  size_list = reverse (size_chain fcs (H, W))
  ∧ (∀ i, (i < length fcs)%nat →
       ∃ ic oc kernel stride padding output_padding size_i size_next,
         conv_transposes (self_decoder self) !! i
         = Some (ConvTranspose2d ic oc kernel stride padding output_padding false)
         ∧ size_list !! i = Some size_i
         ∧ size_list !! (i + 1)%nat = Some size_next
         ∧ (Z.b2z output_padding = 0 ∨ Z.b2z output_padding = 1)
         ∧ (Z.b2z output_padding = 1
            ↔ (size_i.1 - 1) * stride - 2 * padding + kernel ≠ size_next.1)
         ∧ ∀ s, module_size
                  (ConvTranspose2d ic oc kernel stride padding output_padding false) s
                = (conv_transpose2d_out kernel stride padding (Z.b2z output_padding) s.1,
                   conv_transpose2d_out kernel stride padding (Z.b2z output_padding) s.2))
  ∧ (∀ W', ∃ self' size_list',
       init_locals name in_channels (H, W') dropout dropout_val fcs
       = Ok (self', size_list')
       ∧ self_decoder self' = self_decoder self).
Proof.
  intros (Hs & -> & ->)%init_locals_inv. cbn [self_decoder].
  unfold init_decoder, init_size_list. split_and!.
  - done.
  - intros i Hi. rewrite conv_transposes_dec_blocks, list_lookup_imap.
    destruct (reverse fcs !! i) as [f|] eqn:Hf.
    2:{ apply lookup_ge_None in Hf. rewrite length_reverse in Hf. lia. }
    set (sl := reverse (size_chain fcs (H, W))).
    assert (length sl = S (length fcs)) as Hlen.
    { unfold sl. by rewrite length_reverse, size_chain_length. }
    exists (fs_1 f), (fs_0 f), (fs_2 f), (fs_3 f), (fs_4 f),
      (bool_decide (deconv_estimate f (sl !!! i).1 ≠ (sl !!! (i + 1)%nat).1)),
      (sl !!! i), (sl !!! (i + 1)%nat).
    split_and!.
    + done.
    + apply list_lookup_lookup_total_lt. lia.
    + apply list_lookup_lookup_total_lt. lia.
    + case_bool_decide; cbn; auto.
    + unfold deconv_estimate.
      case_bool_decide; unfold Z.b2z; (split; intros ?); (done || lia).
    + done.
  - intros W'. eexists _, _. split; [by apply init_locals_spec|].
    cbn [self_decoder]. unfold init_decoder, init_size_list.
    apply dec_blocks_heights. rewrite !fmap_reverse. f_equal.
    apply size_chain_heights.
Qed.

Lemma output_padding_from_height_witness :
  ∃ self size_list,
    init_locals "default_model" 3 (256, 256) true default_dropout_val
      test_filter_channel_sizes = Ok (self, size_list)
    ∧ size_list = [(66, 66); (130, 130); (258, 258); (256, 256)]
    ∧ conv_transposes (self_decoder self)
      = [ConvTranspose2d 512 256 3 2 2 true false;
         ConvTranspose2d 256 128 3 2 2 true false;
         ConvTranspose2d 128 3 7 1 4 false false]
    ∧ ∀ W', ∃ self' size_list',
        init_locals "default_model" 3 (256, W') true default_dropout_val
          test_filter_channel_sizes = Ok (self', size_list')
        ∧ self_decoder self' = self_decoder self.
Proof.
  eexists _, _. split; [vm_compute; reflexivity|].
  split; [reflexivity|]. split; [vm_compute; reflexivity|].
  eapply (output_padding_from_height "default_model" 3 256 256 true
            default_dropout_val test_filter_channel_sizes).
  vm_compute. reflexivity.
Defined.

(** the decoder of an autoencoder with at least one layer starts with a
    transposed convolution *)
Lemma init_decoder_head in_size fcs :
  fcs ≠ [] →
  ∃ ic oc kernel stride padding output_padding rest,
    init_decoder in_size fcs
    = ("deconv1",
       ConvTranspose2d ic oc kernel stride padding output_padding false) :: rest.
Proof.
  intros Hne. unfold init_decoder.
  destruct (reverse fcs) as [|f fs] eqn:Hrev.
  { apply (f_equal length) in Hrev. rewrite length_reverse in Hrev.
    by destruct fcs. }
  cbn [dec_blocks dec_block app]. by eexists _, _, _, _, _, _, _.
Qed.

(** C1: the sizes are never restored, because [forward] never returns an
    output.  For every autoencoder the constructor builds from at least one
    layer specification and every input, whatever the layers compute, the
    call of the first transposed convolution raises [TypeError] (its
    [output_padding] is the [bool] of the comparison, where the comment in
    the source means the number 1), unless the encoder has raised before;
    so composing encoder and decoder yields no size at all. *)
Theorem forward_raises_TypeError {tensor : Type}
    (compute : nn_module → tensor → result tensor)
    name in_channels in_size dropout dropout_val fcs self x :
  init name in_channels in_size dropout dropout_val fcs = Ok self →
  fcs ≠ [] →
  (∀ encoded,
     call_sequential compute (self_encoder self) x = Ok encoded →
     forward compute self x = Raise TypeError)
  ∧ ∀ y, forward compute self x ≠ Ok y.
Proof.
  intros (_ & _ & ->)%init_inv Hne. unfold forward. cbn [self_encoder self_decoder].
  destruct (init_decoder_head in_size fcs Hne)
    as (ic & oc & kernel & stride & padding & output_padding & rest & ->).
  split.
  - by intros encoded ->.
  - intros y.
    by destruct (call_sequential compute
                   (init_encoder in_channels dropout dropout_val fcs) x).
Qed.

Lemma forward_raises_TypeError_witness :
  ∃ self,
    test_autoencoder_model = Ok self
    ∧ forward (λ _ (x : list Z), Ok x) self [1; 3; 256; 256] = Raise TypeError.
Proof.
  eexists. split; [vm_compute; reflexivity|].
  refine (proj1 (forward_raises_TypeError (λ _ (x : list Z), Ok x)
                   "default_model" 3 (256, 256) true default_dropout_val
                   test_filter_channel_sizes _ [1; 3; 256; 256] _ _)
            [1; 3; 256; 256] _).
  - vm_compute. reflexivity.
  - discriminate.
  - vm_compute. reflexivity.
Defined.

(** * Properties of the pipeline *)

(** ** Reasoning about [io] computations *)

Lemma io_bind_unfold {A B} (m : io A) (k : A → io B) log :
  (m ≫= k) log
  = match m log with
    | (Ok a, log') => k a log'
    | (Raise e, log') => (Raise e, log')
    end.
Proof. done. Qed.

Lemma io_bind_Ok {A B} (m : io A) (k : A → io B) log b log' :
  (m ≫= k) log = (Ok b, log') →
  ∃ a log1, m log = (Ok a, log1) ∧ k a log1 = (Ok b, log').
Proof.
  rewrite io_bind_unfold. destruct (m log) as [[a|e] log1]; [eauto|done].
Qed.

Lemma io_lift_Ok {A} (r : result A) log a log' :
  lift r log = (Ok a, log') → r = Ok a ∧ log' = log.
Proof. unfold lift. by intros [= -> ->]. Qed.

Lemma io_emit_Ok e log u log' :
  emit e log = (Ok u, log') → log' = log ++ [e].
Proof. unfold emit. by intros [= <-]. Qed.

Lemma io_ret_Ok {A} (a : A) log b log' :
  mret (M := io) a log = (Ok b, log') → b = a ∧ log' = log.
Proof. by intros [= -> ->]. Qed.

Lemma io_bind_lift_Ok {A B} (r : result A) a (k : A → io B) log :
  r = Ok a → (lift r ≫= k) log = k a log.
Proof. by intros ->. Qed.

Lemma io_bind_raise {A B} e (k : A → io B) log :
  (raise e ≫= k) log = (Raise e, log).
Proof. done. Qed.

Lemma io_bind_emit {B} e (k : () → io B) log :
  (emit e ≫= k) log = k () (log ++ [e]).
Proof. done. Qed.

Lemma io_bind_ret {A B} (a : A) (k : A → io B) log :
  (mret a ≫= k) log = k a log.
Proof. done. Qed.

Lemma io_bind_assoc {A B C} (m : io A) (f : A → io B) (g : B → io C) log :
  ((m ≫= f) ≫= g) log = (m ≫= λ a, f a ≫= g) log.
Proof. rewrite !io_bind_unfold. by destruct (m log) as [[a|e] log1]. Qed.


Create HintDb emits discriminated.

Lemma emits_ret {A} P (a : A) : emits P (mret a).
Proof. intros log r log' [= <- <-]. exists []. by rewrite app_nil_r. Qed.

Lemma emits_lift {A} P (r : result A) : emits P (lift r).
Proof. intros log r' log' [= <- <-]. exists []. by rewrite app_nil_r. Qed.

Lemma emits_raise {A} P e : emits P (raise (A := A) e).
Proof. apply emits_lift. Qed.

Lemma emits_emit (P : event → Prop) e : P e → emits P (emit e).
Proof. intros He log r log' [= <- <-]. exists [e]. by repeat constructor. Qed.

Lemma emits_bind {A B} P (m : io A) (k : A → io B) :
  emits P m → (∀ a, emits P (k a)) → emits P (m ≫= k).
Proof.
  intros Hm Hk log r log'. rewrite io_bind_unfold.
  destruct (m log) as [[a|e] log1] eqn:Hrun;
    destruct (Hm _ _ _ Hrun) as (new1 & -> & Hnew1).
  - intros (new2 & -> & Hnew2)%Hk. exists (new1 ++ new2).
    by rewrite (assoc_L (++)), Forall_app.
  - intros [= <- <-]. eauto.
Qed.

Lemma emits_for_fold {A S} P (body : S → A → io S) s l :
  (∀ s x, emits P (body s x)) → emits P (for_fold body s l).
Proof.
  intros Hbody. revert s. induction l as [|x l IH]; intros s; cbn [for_fold].
  - apply emits_ret.
  - apply emits_bind; [apply Hbody|apply IH].
Qed.

#[global] Hint Resolve emits_ret emits_lift emits_raise emits_emit emits_bind
  emits_for_fold : emits.

Ltac solve_emits :=
  repeat first
    [ apply emits_ret | apply emits_lift | apply emits_raise
    | apply emits_bind; [|intros]
    | apply emits_for_fold; intros
    | apply emits_emit
    | match goal with
      | |- emits _ (let '(_, _) := ?p in _) => destruct p
      | |- emits _ (match ?p with (_, _) => _ end) => destruct p
      | |- emits _ (if ?c then _ else _) => destruct c
      end ].

Section pipeline_facts.
Context `{L : Library}.

(** ** [train] *)

Lemma train_emits (P : event → Prop) opt :
  (∀ self, P (EvConstruct self)) →
  (∀ epoch i, P (EvTrainStep epoch i)) →
  (∀ file, P (EvSave file)) →
  emits P (train opt).
Proof. intros HC HT HS. unfold train. solve_emits; auto. Qed.
End pipeline_facts.

(** ** Dictionaries and frames *)

Section dict_facts.
Context {K V : Type} `{EqDecision K}.
Implicit Types (k : K) (v : V) (d : list (K * V)).



Lemma dict_get_None k d : dict_get k d = None ↔ k ∉ d.*1.
Proof.
  induction d as [|[k' v'] d IH]; cbn.
  - split; [intros _; apply not_elem_of_nil|done].
  - rewrite not_elem_of_cons. destruct (decide (k' = k)) as [->|Hne].
    + split; [done|]. by intros [? _].
    + rewrite IH. split; [|tauto]. intros ?. split; [congruence|done].
Qed.

Lemma dict_get_app k d1 d2 :
  dict_get k (d1 ++ d2)
  = match dict_get k d1 with Some v => Some v | None => dict_get k d2 end.
Proof.
  induction d1 as [|[k' v'] d1 IH]; cbn; [done|]. by destruct (decide (k' = k)).
Qed.

End dict_facts.




(** ** [generate_embeddings] *)

Section embedding_facts.
Context `{L : Library}.

Lemma decode_images_emits (P : event → Prop) centroids out_shape model :
  (∀ i, P (EvDecode i)) → emits P (decode_images centroids out_shape model).
Proof. intros HD. unfold decode_images. solve_emits; auto. Qed.

(** the calls [generate_embeddings] can record *)
Lemma generate_embeddings_emits (P : event → Prop) opt ckpt_exists encodings_exist
    retrain reencode quick :
  (∀ self, P (EvConstruct self)) →
  (∀ epoch i, P (EvTrainStep epoch i)) →
  (∀ file, P (EvSave file)) →
  (∀ file, P (EvLoadState file)) →
  P EvEncode →
  P (EvLLE (lll_neighbors opt) 3) →
  P (EvKMeans (n_clusters opt)) →
  (reencode = true → quick = false → ∀ i, P (EvDecode i)) →
  (∀ file df, P (EvToCsv file df)) →
  emits P (generate_embeddings opt ckpt_exists encodings_exist retrain reencode quick).
Proof.
  intros HC HT HS HL HE HLLE HK HD HCsv. unfold generate_embeddings.
  apply emits_bind.
  { destruct (retrain || negb ckpt_exists); [by apply train_emits|].
    solve_emits; auto. }
  intros model. apply emits_bind; [apply emits_lift|]. intros datas.
  apply emits_bind.
  { destruct (reencode || negb encodings_exist); solve_emits; auto. }
  intros [encodings initial_shape].
  apply emits_bind; [by apply emits_emit|]. intros _.
  apply emits_bind; [apply emits_lift|]. intros [embeds err].
  apply emits_bind; [by apply emits_emit|]. intros _.
  apply emits_bind; [apply emits_lift|]. intros [[centroids labels] inertia].
  apply emits_bind.
  { destruct reencode, quick; cbn [andb negb]; try apply emits_ret.
    apply emits_bind; [apply emits_lift|]. intros shape.
    apply emits_bind; [|intros; apply emits_ret].
    apply decode_images_emits. by apply HD. }
  intros label_images. solve_emits; auto.
Qed.

(** what a returning run went through *)
Lemma generate_embeddings_Ok opt ckpt_exists encodings_exist retrain reencode quick
    log datas label_images log' :
  generate_embeddings opt ckpt_exists encodings_exist retrain reencode quick log
  = (Ok (datas, label_images), log') →
  ∃ encodings embeds err centroids labels inertia embeddings datas0,
    locally_linear_embedding (to_numpy encodings) (lll_neighbors opt) 3
    = Ok (embeds, err)
    ∧ k_means (to_numpy encodings) (n_clusters opt) = Ok (centroids, labels, inertia)
    ∧ make_embeddings_frame encodings embeds labels = Ok embeddings
    ∧ DataLoader (set_batch_size 1 opt) true = Ok datas0
    ∧ join_new_col (dataset datas0) embeddings = Ok (dataset datas)
    ∧ batches datas = batches datas0
    ∧ (∃ log0, log' = log0 ++ [EvToCsv "data/embeddings.csv" (data (dataset datas))])
    ∧ (label_images = None ↔ ¬ (reencode = true ∧ quick = false)).
Proof.
  unfold generate_embeddings. intros Hrun.
  apply io_bind_Ok in Hrun as (model & log1 & _ & Hrun).
  apply io_bind_Ok in Hrun as (datas0 & log2 & [Hdl ->]%io_lift_Ok & Hrun).
  apply io_bind_Ok in Hrun as ([encodings initial_shape] & log3 & _ & Hrun).
  apply io_bind_Ok in Hrun as (? & log4 & _ & Hrun).
  apply io_bind_Ok in Hrun as ([embeds err] & log5 & [Hlle ->]%io_lift_Ok & Hrun).
  apply io_bind_Ok in Hrun as (? & log6 & _ & Hrun).
  apply io_bind_Ok in Hrun
    as ([[centroids labels] inertia] & log7 & [Hkm ->]%io_lift_Ok & Hrun).
  apply io_bind_Ok in Hrun as (label_images' & log8 & Hli & Hrun).
  apply io_bind_Ok in Hrun as (embeddings & log9 & [Hframe ->]%io_lift_Ok & Hrun).
  apply io_bind_Ok in Hrun as (dataset' & log10 & [Hjoin ->]%io_lift_Ok & Hrun).
  apply io_bind_Ok in Hrun as (? & log11 & ->%io_emit_Ok & Hrun).
  apply io_ret_Ok in Hrun as [[= -> ->] ->].
  exists encodings, embeds, err, centroids, labels, inertia, embeddings, datas0.
  cbn [dataset batches]. split_and!; try done; [by eexists|].
  destruct reencode, quick; cbn [andb negb] in Hli.
  - apply io_ret_Ok in Hli as [-> _]. split; [intros _ [_ ?]; done|done].
  - apply io_bind_Ok in Hli as (? & ? & _ & Hli).
    apply io_bind_Ok in Hli as (? & ? & _ & Hli).
    apply io_ret_Ok in Hli as [-> _]. split; [done|]. intros []. done.
  - apply io_ret_Ok in Hli as [-> _]. split; [intros _ [? _]; done|done].
  - apply io_ret_Ok in Hli as [-> _]. split; [intros _ [? _]; done|done].
Qed.
End embedding_facts.

(** ** The pipeline's claims *)

Lemma encode_image_quick_not_Ok `{L : Library} model image r :
  encode_image model image true ≠ Ok r.
Proof.
  unfold encode_image.
  destruct (module_forward (self_encoder model) image) as [encoding|e]; [|done].
  cbn. by destruct (tensor_sum encoding [1; 2]).
Qed.

(** X11: no run of [generate_embeddings] that has to encode (because
    [reencode] is set or [data/encodings.csv] is missing) returns while
    [quick] is true: with no batch the [print] after the loop reads the
    unbound [encoding], with a batch [encode_image] raises. *)
Lemma generate_embeddings_quick_raises `{L : Library} opt ckpt_exists
    encodings_exist retrain reencode log datas label_images log' :
  reencode || negb encodings_exist = true →
  generate_embeddings opt ckpt_exists encodings_exist retrain reencode true log
  ≠ (Ok (datas, label_images), log').
Proof.
  intros Hcond Hrun. unfold generate_embeddings in Hrun.
  apply io_bind_Ok in Hrun as (model & log1 & _ & Hrun).
  apply io_bind_Ok in Hrun as (datas0 & log2 & _ & Hrun).
  apply io_bind_Ok in Hrun as ([encodings initial_shape] & log3 & Henc & _).
  rewrite Hcond in Henc.
  apply io_bind_Ok in Henc as (st & log4 & Hloop & Henc).
  destruct (batches datas0) as [|[data p] rest].
  - apply io_ret_Ok in Hloop as [-> ->].
    apply io_bind_Ok in Henc as (? & ? & _ & Henc).
    by apply io_bind_Ok in Henc as (? & ? & [? ?]%io_lift_Ok & _).
  - cbn [for_fold] in Hloop.
    apply io_bind_Ok in Hloop as (st1 & log5 & Hbody & _).
    apply io_bind_Ok in Hbody as (data' & ? & _ & Hbody).
    apply io_bind_Ok in Hbody as (? & ? & _ & Hbody).
    apply io_bind_Ok in Hbody as (? & ? & [Hencode _]%io_lift_Ok & _).
    by apply encode_image_quick_not_Ok in Hencode.
Qed.

(** C5: with [quick = True], the default, [encode_image] does not return the
    pair of an encoding vector and a shape: once the encoder and the sum over
    axes 1 and 2 have run, the [return] statement reads [initial_shape],
    which only the other branch binds, and raises [UnboundLocalError]. *)
Theorem encode_image_quick_unbound `{L : Library} model image :
  encode_image model image true
  = (encoding ← module_forward (self_encoder model) image;
     _ ← tensor_sum encoding [1; 2];
     Raise (UnboundLocalError "initial_shape")).
Proof.
  unfold encode_image.
  destruct (module_forward (self_encoder model) image) as [encoding|e]; [|done].
  cbn. by destruct (tensor_sum encoding [1; 2]).
Qed.

(** on the autoencoder of [test_autoencoder] and one 256 x 256 RGB image *)
Example encode_image_quick_test :
  (model ← test_autoencoder_model;
   encode_image (L := shape_library) model [1; 3; 256; 256] true)
  = Raise (UnboundLocalError "initial_shape").
Proof. vm_compute. reflexivity. Qed.

(** the encoder output has 512 channels, and summing over axes 1 and 2 of
    (batch, channels, height, width) leaves (batch, width) *)
Example encode_image_sum_shape :
  (model ← test_autoencoder_model;
   encoding ← sequential_shape (self_encoder model) [1; 3; 256; 256];
   mret (encoding, sum_shape [1; 2] encoding))
  = Ok ([1; 512; 66; 66], [1; 66]).
Proof. vm_compute. reflexivity. Qed.

Example encode_image_slow_test :
  (model ← test_autoencoder_model;
   encode_image (L := shape_library) model [1; 3; 256; 256] false)
  = Ok ([2230272], [1; 512; 66; 66]).
Proof. vm_compute. reflexivity. Qed.

(** C6: [train] builds the autoencoder only when the dataset's mode is
    ["image"].  For any other mode it raises [AttributeError] and has
    recorded nothing by then: no model was constructed, trained or saved.
    In image mode the construction is the first call recorded. *)
Theorem train_mode_gate `{L : Library} opt datas log :
  DataLoader opt false = Ok datas →
  (mode (dataset datas) ≠ "image" →
   train opt log
   = (Raise (AttributeError (mode (dataset datas) +:+ " mode is not supported")),
      log))
  ∧ (mode (dataset datas) = "image" →
     ∀ model, construct opt = Ok model →
       ∃ r new, train opt log = (r, log ++ EvConstruct model :: new)).
Proof.
  intros Hdl. unfold train. rewrite (io_bind_lift_Ok _ datas) by done. split.
  - intros Hmode. rewrite decide_False by done. apply io_bind_raise.
  - intros Hmode model Hmodel. rewrite decide_True by done.
    rewrite io_bind_assoc, (io_bind_lift_Ok _ model) by done.
    rewrite io_bind_assoc, io_bind_emit, io_bind_ret.
    match goal with
    | |- ∃ r new, ?m ?log1 = _ =>
        assert (emits (λ _, True) m) as Hrest; [solve_emits; auto|];
        destruct (m log1) as [r log'] eqn:Hrun;
        destruct (Hrest _ _ _ Hrun) as (new & -> & _)
    end.
    exists r, new. by rewrite <- (assoc_L (++)).
Qed.

Lemma train_mode_gate_witness :
  train (L := shape_library_of "audio") test_options []
  = (Raise (AttributeError "audio mode is not supported"), []).
Proof.
  refine (proj1 (train_mode_gate (L := shape_library_of "audio") test_options
                   (MkLoader (MkDataset "audio" (zero_frame ["a.png"; "b.png"] 0))
                      [([1; 3; 8; 8], "a.png"); ([1; 3; 8; 8], "b.png")])
                   [] _) _).
  - reflexivity.
  - cbn. discriminate.
Defined.

(** C10: a run of [generate_embeddings] that returns has
    [label_images = None] unless [reencode] is true and [quick] is false, and
    in that one case it returns the dictionary of decoded images instead;
    in any run, returning or raising, the decoder is called on a centroid
    only when [reencode] is true and [quick] is false. *)
Theorem label_images_only_when_reencoding `{L : Library} opt ckpt_exists
    encodings_exist retrain reencode quick r trace :
  generate_embeddings opt ckpt_exists encodings_exist retrain reencode quick []
  = (r, trace) →
  (∀ datas label_images,
     r = Ok (datas, label_images) →
     (label_images = None ↔ ¬ (reencode = true ∧ quick = false)))
  ∧ (∀ i, EvDecode i ∈ trace → reencode = true ∧ quick = false).
Proof.
  intros Hrun. split.
  - intros datas label_images ->.
    apply generate_embeddings_Ok in Hrun
      as (? & ? & ? & ? & ? & ? & ? & ? & _ & _ & _ & _ & _ & _ & _ & Hli).
    exact Hli.
  - intros i Hi.
    pose proof (generate_embeddings_emits
      (λ e, ∀ i, e = EvDecode i → reencode = true ∧ quick = false)
      opt ckpt_exists encodings_exist retrain reencode quick) as Hemits.
    destruct (Hemits ltac:(done) ltac:(done) ltac:(done) ltac:(done) ltac:(done)
                ltac:(done) ltac:(done) ltac:(by intros -> ->) ltac:(done)
                _ _ _ Hrun) as (new & -> & Hall).
    rewrite Forall_forall in Hall. by apply (Hall _ Hi i).
Qed.

Lemma label_images_only_when_reencoding_witness :
  let run := generate_embeddings (L := shape_library) test_options true false
               false false false [] in
  (∃ datas, run.1 = Ok (datas, None))
  ∧ (∀ i, EvDecode i ∈ run.2 → false = true ∧ false = false).
Proof.
  intros run.
  destruct (label_images_only_when_reencoding (L := shape_library) test_options
              true false false false false run.1 run.2) as [Hret Hdec].
  { vm_compute. reflexivity. }
  split; [|exact Hdec]. eexists. vm_compute. reflexivity.
Defined.

(** a run that re-encodes without [quick] returns the decoded centroids *)
Example label_images_decoded :
  let run := generate_embeddings (L := shape_library) test_options true false
               false true false [] in
  (run.1 ≫= λ r, mret r.2)
  = Ok (Some [("label_0", [1; 3; 8; 8]); ("label_1", [1; 3; 8; 8]);
              ("label_2", [1; 3; 8; 8])])
  ∧ omap (λ e, match e with EvDecode i => Some i | _ => None end) run.2
    = [0; 1; 2]%nat.
Proof. split; vm_compute; reflexivity. Qed.


Section run_inversion.
Context `{L : Library}.


End run_inversion.









(** * Further properties of the constructor *)

(** X1: every constructed autoencoder has nonzero strides throughout.  A
    zero stride anywhere in [filter_channel_sizes] keeps the constructor from
    returning, whatever the other arguments: the size computation of that
    layer divides by the stride. *)
Theorem constructed_strides_nonzero name in_channels in_size dropout dropout_val
    fcs self f :
  init name in_channels in_size dropout dropout_val fcs = Ok self →
  f ∈ fcs →
  fs_3 f ≠ 0.
Proof.
  intros (Hs & _)%init_inv Hin.
  unfold strides_nonzero in Hs. rewrite Forall_forall in Hs. by apply Hs.
Qed.

Lemma constructed_strides_nonzero_witness :
  ∃ self,
    test_autoencoder_model = Ok self
    ∧ fs_3 (FilterSize 128 256 3 2 2) ≠ 0.
Proof.
  eexists. split; [vm_compute; reflexivity|].
  eapply (constructed_strides_nonzero "default_model" 3 (256, 256) true
            default_dropout_val test_filter_channel_sizes).
  - vm_compute. reflexivity.
  - apply list_elem_of_further, list_elem_of_here.
Defined.

(** names inside the layers *)
Lemma enc_block_names dropout dropout_val i f nm m :
  (nm, m) ∈ enc_block dropout dropout_val i f →
  ∃ p, layer_prefix p ∧ nm = format_name p i.
Proof.
  unfold enc_block. destruct dropout; cbn; rewrite !elem_of_cons, elem_of_nil;
    intros Hin; destruct_or!; simplify_eq; eexists; (split; [|done]); solve_prefix.
Qed.

Lemma dec_block_names sl i f nm m :
  (nm, m) ∈ dec_block sl i f → ∃ p, layer_prefix p ∧ nm = format_name p i.
Proof.
  unfold dec_block. rewrite !elem_of_cons, elem_of_nil.
  intros Hin; destruct_or!; simplify_eq; eexists; (split; [|done]); solve_prefix.
Qed.

Lemma enc_blocks_names dropout dropout_val j fcs nm m :
  (nm, m) ∈ enc_blocks dropout dropout_val j fcs →
  ∃ p i, layer_prefix p ∧ nm = format_name p i ∧ (j ≤ i)%nat.
Proof.
  revert j. induction fcs as [|f fcs IH]; intros j; cbn [enc_blocks].
  - by rewrite elem_of_nil.
  - rewrite elem_of_app. intros [Hin|Hin].
    + apply enc_block_names in Hin as (p & Hp & ->). by exists p, j.
    + apply IH in Hin as (p & i & Hp & -> & Hle). exists p, i.
      split_and!; [done..|lia].
Qed.

Lemma dec_blocks_names sl j fs nm m :
  (nm, m) ∈ dec_blocks sl j fs →
  ∃ p i, layer_prefix p ∧ nm = format_name p i ∧ (j ≤ i)%nat.
Proof.
  revert j. induction fs as [|f fs IH]; intros j; cbn [dec_blocks].
  - by rewrite elem_of_nil.
  - rewrite elem_of_app. intros [Hin|Hin].
    + apply dec_block_names in Hin as (p & Hp & ->). by exists p, j.
    + apply IH in Hin as (p & i & Hp & -> & Hle). exists p, i.
      split_and!; [done..|lia].
Qed.

Lemma dict_get_not_in {V} (k : string) (d : list (string * V)) :
  (∀ v, (k, v) ∉ d) → dict_get k d = None.
Proof.
  intros Hni. apply dict_get_None. intros ([k' v] & -> & Hin)%list_elem_of_fmap.
  by eapply Hni.
Qed.

Lemma dict_get_enc_blocks dropout dropout_val p i fcs k f :
  layer_prefix p → fcs !! k = Some f →
  dict_get (format_name p (i + k)) (enc_blocks dropout dropout_val i fcs)
  = dict_get (format_name p (i + k)) (enc_block dropout dropout_val (i + k) f).
Proof.
  intros Hp. revert i k. induction fcs as [|g fcs IH]; intros i k Hf; [done|].
  cbn [enc_blocks]. rewrite dict_get_app. destruct k as [|k]; cbn in Hf.
  - simplify_eq. rewrite Nat.add_0_r.
    destruct (dict_get _ (enc_block _ _ i f)); [done|].
    apply dict_get_not_in. intros v (q & j & Hq & Heq & Hle)%enc_blocks_names.
    apply format_name_inj in Heq as [_ ->]; [lia|done..].
  - rewrite (dict_get_not_in _ (enc_block _ _ i g)).
    + replace (i + S k)%nat with (S i + k)%nat by lia. by apply IH.
    + intros v (q & Hq & Heq)%enc_block_names.
      apply format_name_inj in Heq as [_ ?]; [lia|done..].
Qed.

Lemma dict_get_dec_blocks sl p i fs k f :
  layer_prefix p → fs !! k = Some f →
  dict_get (format_name p (i + k)) (dec_blocks sl i fs)
  = dict_get (format_name p (i + k)) (dec_block sl (i + k) f).
Proof.
  intros Hp. revert i k. induction fs as [|g fs IH]; intros i k Hf; [done|].
  cbn [dec_blocks]. rewrite dict_get_app. destruct k as [|k]; cbn in Hf.
  - simplify_eq. rewrite Nat.add_0_r.
    destruct (dict_get _ (dec_block _ i f)); [done|].
    apply dict_get_not_in. intros v (q & j & Hq & Heq & Hle)%dec_blocks_names.
    apply format_name_inj in Heq as [_ ->]; [lia|done..].
  - rewrite (dict_get_not_in _ (dec_block _ i g)).
    + replace (i + S k)%nat with (S i + k)%nat by lia. by apply IH.
    + intros v (q & Hq & Heq)%dec_block_names.
      apply format_name_inj in Heq as [_ ?]; [lia|done..].
Qed.

(** X2: in a constructed autoencoder the modules can be fetched by name:
    [encoder.conv(k+1)] is the convolution built from specification k,
    [encoder.relu(k+1)] its activation, [encoder.dropout(k+1)] its dropout
    when the flag is set and absent otherwise, and [decoder.deconv(n-k)] is
    the transposed convolution mirroring specification k.  No later
    [add_module] call replaces any of them. *)
Theorem modules_by_name name in_channels in_size dropout dropout_val fcs self k f :
  init name in_channels in_size dropout dropout_val fcs = Ok self →
  fcs !! k = Some f →
  get_module "batchnorm1" (self_encoder self) = Some (BatchNorm2d in_channels)
  ∧ get_module (format_name "conv" k) (self_encoder self)
    = Some (Conv2d (fs_0 f) (fs_1 f) (fs_2 f) (fs_3 f) (fs_4 f) false)
  ∧ get_module (format_name "relu" k) (self_encoder self) = Some (ReLU true)
  ∧ get_module (format_name "dropout" k) (self_encoder self)
    = (if dropout then Some (Dropout dropout_val) else None)
  ∧ ∃ output_padding,
      get_module (format_name "deconv" (length fcs - 1 - k)) (self_decoder self)
      = Some (ConvTranspose2d (fs_1 f) (fs_0 f) (fs_2 f) (fs_3 f) (fs_4 f)
                output_padding false).
Proof.
  intros (_ & _ & ->)%init_inv Hf. cbn [self_encoder self_decoder].
  unfold get_module, init_encoder, init_decoder.
  assert (∀ p, layer_prefix p →
    dict_get (format_name p k)
      (("batchnorm1", BatchNorm2d in_channels) :: enc_blocks dropout dropout_val 0 fcs)
    = dict_get (format_name p k) (enc_block dropout dropout_val k f)) as Henc.
  { intros p Hp. cbn [dict_get].
    rewrite decide_False by (by intros ?%eq_sym%format_name_not_batchnorm).
    by apply (dict_get_enc_blocks dropout dropout_val p 0 fcs k f). }
  split_and!.
  - cbn. by rewrite decide_True.
  - rewrite Henc by solve_prefix. unfold enc_block. cbn. by rewrite decide_True.
  - rewrite Henc by solve_prefix. unfold enc_block.
    destruct dropout; cbn; rewrite ?decide_True by done;
      repeat (rewrite decide_False by (unfold format_name; cbn; discriminate));
      by rewrite ?decide_True.
  - rewrite Henc by solve_prefix. unfold enc_block.
    destruct dropout; cbn;
      repeat (rewrite decide_False by (unfold format_name; cbn; discriminate));
      by rewrite ?decide_True.
  - assert (k < length fcs)%nat as Hk by (by eapply lookup_lt_Some).
    assert (reverse fcs !! (length fcs - 1 - k)%nat = Some f) as Hrev.
    { rewrite reverse_lookup by lia.
      by replace (length fcs - S (length fcs - 1 - k))%nat with k by lia. }
    pose proof (dict_get_dec_blocks (init_size_list in_size fcs) "deconv" 0
                  (reverse fcs) _ f ltac:(solve_prefix) Hrev) as Hdec.
    cbn [Nat.add] in Hdec. rewrite Hdec. unfold dec_block. cbn.
    rewrite decide_True by done. eauto.
Qed.

Lemma modules_by_name_witness :
  ∃ self, test_autoencoder_model = Ok self
    ∧ get_module "conv2" (self_encoder self) = Some (Conv2d 128 256 3 2 2 false)
    ∧ get_module "dropout2" (self_encoder self) = Some (Dropout default_dropout_val)
    ∧ ∃ output_padding,
        get_module "deconv2" (self_decoder self)
        = Some (ConvTranspose2d 256 128 3 2 2 output_padding false).
Proof.
  eexists. split; [vm_compute; reflexivity|].
  match goal with
  | |- get_module _ (self_encoder ?self) = _ ∧ _ =>
      destruct (modules_by_name "default_model" 3 (256, 256) true
                  default_dropout_val test_filter_channel_sizes self 1%nat
                  (FilterSize 128 256 3 2 2))
        as (_ & Hconv & _ & Hdrop & Hdec); [vm_compute; reflexivity|reflexivity|]
  end.
  split; [exact Hconv|]. split; [exact Hdrop|exact Hdec].
Defined.

(** the reversed size list read by decoder iteration [i]: entry [i] is the
    convolution of entry [i + 1] by the specification that iteration uses *)
Lemma init_size_list_lookup in_size fcs i f :
  reverse fcs !! i = Some f →
  ∃ x, init_size_list in_size fcs !! (i + 1)%nat = Some x
       ∧ init_size_list in_size fcs !! i = Some (conv2d_size f x).
Proof.
  intros Hf. assert (i < length fcs)%nat as Hi.
  { apply lookup_lt_Some in Hf. by rewrite length_reverse in Hf. }
  rewrite reverse_lookup in Hf by done.
  destruct (size_chain_step fcs in_size _ f Hf) as (x & Hx & HSx).
  exists x. unfold init_size_list.
  rewrite !reverse_lookup by (rewrite size_chain_length; lia).
  rewrite size_chain_length.
  replace (S (length fcs) - S (i + 1))%nat with (length fcs - S i)%nat by lia.
  replace (S (length fcs) - S i)%nat with (S (length fcs - S i)) by lia.
  done.
Qed.

(** X3: every transposed convolution of a constructed decoder gets an output
    padding PyTorch accepts: none at all when its stride is 1, and, for any
    positive stride, a value below the stride. *)
Theorem output_padding_below_stride name in_channels in_size dropout dropout_val
    fcs self ic oc kernel stride padding output_padding bias :
  init name in_channels in_size dropout dropout_val fcs = Ok self →
  ConvTranspose2d ic oc kernel stride padding output_padding bias
    ∈ conv_transposes (self_decoder self) →
  (stride = 1 → output_padding = false)
  ∧ (0 < stride → Z.b2z output_padding < stride).
Proof.
  intros (_ & _ & ->)%init_inv. cbn [self_decoder]. unfold init_decoder.
  rewrite conv_transposes_dec_blocks.
  intros (i & f & Heq & Hf)%elem_of_lookup_imap. cbn [Nat.add] in Heq.
  unfold dec_layer in Heq. injection Heq as -> -> -> -> -> Hop ->.
  destruct (init_size_list_lookup in_size fcs i f Hf) as (x & Hx & Hcx).
  rewrite (list_lookup_total_correct _ _ _ Hx),
    (list_lookup_total_correct _ _ _ Hcx) in Hop.
  split.
  - intros Hs. subst output_padding. apply bool_decide_eq_false. intros Hne.
    apply Hne. unfold deconv_estimate, conv2d_size, conv2d_out. cbn [fst].
    rewrite Hs, Z.div_1_r. lia.
  - intros Hs. destruct output_padding; cbn; [|lia].
    destruct (decide (fs_3 f = 1)) as [H1|H1]; [|lia].
    symmetry in Hop. apply bool_decide_eq_true in Hop. destruct Hop.
    unfold deconv_estimate, conv2d_size, conv2d_out. cbn [fst].
    rewrite H1, Z.div_1_r. lia.
Qed.

Lemma output_padding_below_stride_witness :
  ∃ self, test_autoencoder_model = Ok self
    ∧ (2 = 1 → true = false) ∧ (0 < 2 → Z.b2z true < 2).
Proof.
  eexists. split; [vm_compute; reflexivity|].
  eapply (output_padding_below_stride "default_model" 3 (256, 256) true
            default_dropout_val test_filter_channel_sizes _
            512 256 3 2 2 true false).
  - vm_compute. reflexivity.
  - cbn [self_decoder]. unfold conv_transposes, modules. cbn.
    apply list_elem_of_here.
Defined.

(** ** What the output padding records *)

Lemma deconv_estimate_remainder f n :
  fs_3 f ≠ 0 →
  deconv_estimate f (conv2d_out (fs_2 f) (fs_3 f) (fs_4 f) n)
  = n - conv_remainder f n.
Proof.
  intros Hs. unfold deconv_estimate, conv2d_out, conv_remainder.
  pose proof (Z.div_mod (n + 2 * fs_4 f - (fs_2 f - 1) - 1) (fs_3 f) Hs). lia.
Qed.

(** X4: the flag the constructor passes as [output_padding] records whether
    the floor division of the encoder lost something.  The transposed
    convolution of decoder iteration i undoes the convolution of the
    specification [reversed(filter_channel_sizes)[i]]; its [output_padding]
    is [True] exactly when the height [h] which that convolution received
    leaves a remainder, [(h + 2 * padding - kernel) % stride != 0].  The flag
    does not tell how large the remainder is. *)
Theorem output_padding_iff_remainder name in_channels in_size dropout dropout_val
    fcs self i f :
  init name in_channels in_size dropout dropout_val fcs = Ok self →
  reverse fcs !! i = Some f →
  ∃ s output_padding,
    size_chain fcs in_size !! (length fcs - 1 - i)%nat = Some s
    ∧ conv_transposes (self_decoder self) !! i
      = Some (ConvTranspose2d (fs_1 f) (fs_0 f) (fs_2 f) (fs_3 f) (fs_4 f)
                output_padding false)
    ∧ (output_padding = true ↔ conv_remainder f s.1 ≠ 0).
Proof.
  intros (Hs & _ & ->)%init_inv Hf. cbn [self_decoder]. unfold init_decoder.
  assert (i < length fcs)%nat as Hi.
  { apply lookup_lt_Some in Hf. by rewrite length_reverse in Hf. }
  assert (fs_3 f ≠ 0) as Hstride.
  { unfold strides_nonzero in Hs. rewrite Forall_forall in Hs. apply Hs.
    apply elem_of_reverse. by eapply list_elem_of_lookup_2. }
  destruct (init_size_list_lookup in_size fcs i f Hf) as (s & Hx & Hcx).
  exists s. eexists. split_and!.
  - unfold init_size_list in Hx.
    rewrite reverse_lookup in Hx by (rewrite size_chain_length; lia).
    rewrite size_chain_length in Hx.
    by replace (S (length fcs) - S (i + 1))%nat with (length fcs - 1 - i)%nat
      in Hx by lia.
  - rewrite conv_transposes_dec_blocks, list_lookup_imap, Hf. cbn [Nat.add].
    done.
  - rewrite (list_lookup_total_correct _ _ _ Hx),
      (list_lookup_total_correct _ _ _ Hcx).
    unfold conv2d_size. cbn [fst].
    rewrite deconv_estimate_remainder by done.
    rewrite bool_decide_eq_true. split; intros ?; lia.
Qed.

Lemma output_padding_iff_remainder_witness :
  ∃ self,
    test_autoencoder_model = Ok self
    ∧ ∃ s output_padding,
        size_chain test_filter_channel_sizes (256, 256) !! 2%nat = Some s
        ∧ conv_transposes (self_decoder self) !! 0%nat
          = Some (ConvTranspose2d 512 256 3 2 2 output_padding false)
        ∧ (output_padding = true
           ↔ conv_remainder (FilterSize 256 512 3 2 2) s.1 ≠ 0).
Proof.
  eexists. split; [vm_compute; reflexivity|].
  apply (output_padding_iff_remainder "default_model" 3 (256, 256) true
           default_dropout_val test_filter_channel_sizes _ 0
           (FilterSize 256 512 3 2 2)).
  - vm_compute. reflexivity.
  - reflexivity.
Defined.

(** X5: the encoder depends on the specifications, [in_channels] and the
    dropout settings only: constructing with another [in_size] or [name]
    gives the same encoder modules under the same names. *)
Theorem encoder_independent_of_in_size name name' in_channels in_size in_size'
    dropout dropout_val fcs self :
  init name in_channels in_size dropout dropout_val fcs = Ok self →
  ∃ self',
    init name' in_channels in_size' dropout dropout_val fcs = Ok self'
    ∧ self_encoder self' = self_encoder self
    ∧ self_in_size self' = in_size' ∧ self_name self' = name'.
Proof.
  intros (Hs & _ & ->)%init_inv. eexists. split; [by apply init_spec|done].
Qed.

Lemma encoder_independent_of_in_size_witness :
  ∃ self self',
    test_autoencoder_model = Ok self
    ∧ init "other" 3 (100, 37) true default_dropout_val test_filter_channel_sizes
      = Ok self'
    ∧ self_encoder self' = self_encoder self.
Proof.
  destruct (encoder_independent_of_in_size "default_model" "other" 3 (256, 256)
              (100, 37) true default_dropout_val test_filter_channel_sizes
              (MkVisAutoEncoder (256, 256) "default_model"
                 (init_encoder 3 true default_dropout_val test_filter_channel_sizes)
                 (init_decoder (256, 256) test_filter_channel_sizes)))
    as (self' & Hinit & Henc & _).
  { vm_compute. reflexivity. }
  eexists _, self'. split; [vm_compute; reflexivity|]. split; [exact Hinit|].
  rewrite Henc. vm_compute. reflexivity.
Defined.

(** * Further properties of [train] *)

Lemma append_length s t :
  String.length (s +:+ t) = (String.length s + String.length t)%nat.
Proof.
  induction s as [|c s IH]; [done|].
  change (S (String.length (s +:+ t)) = S (String.length s + String.length t)).
  by f_equal.
Qed.

Lemma append_inj_r s1 s2 t : s1 +:+ t = s2 +:+ t → s1 = s2.
Proof.
  revert s2. induction s1 as [|c s1 IH]; intros [|c2 s2] Heq.
  - done.
  - apply (f_equal String.length) in Heq.
    rewrite !append_length in Heq. cbn in Heq. lia.
  - apply (f_equal String.length) in Heq.
    rewrite !append_length in Heq. cbn in Heq. lia.
  - cbn [String.append] in Heq. injection Heq as -> Heq. f_equal. by apply IH.
Qed.

Lemma save_file_default self :
  save_file self = "ckpts/default_model.pt" ↔ self_name self = "default_model".
Proof.
  unfold save_file. split.
  - cbn [String.append]. intros [= Heq].
    by apply (append_inj_r _ "default_model" ".pt").
  - by intros ->.
Qed.

Lemma construct_name opt model :
  construct opt = Ok model →
  self_name model = default "default_model" (kw_name (visual_aa_args opt)).
Proof. unfold construct. by intros (_ & _ & ->)%init_inv. Qed.

(** what [k] may assume of the value [m] returned *)
Lemma emits_bind_strong {A B} P (m : io A) (k : A → io B) :
  emits P m →
  (∀ a, (∃ log log', m log = (Ok a, log')) → emits P (k a)) →
  emits P (m ≫= k).
Proof.
  intros Hm Hk log r log'. rewrite io_bind_unfold.
  destruct (m log) as [[a|e] log1] eqn:Hrun;
    destruct (Hm _ _ _ Hrun) as (new1 & -> & Hnew1).
  - intros Hrun2. destruct (Hk a ltac:(eauto) _ _ _ Hrun2) as (new2 & -> & Hnew2).
    exists (new1 ++ new2). by rewrite (assoc_L (++)), Forall_app.
  - intros [= <- <-]. eauto.
Qed.

Section train_facts.
Context `{L : Library}.

(** the steps of one epoch when every batch trains *)
Lemma train_epoch_steps model opt epoch (bs : list (tensor * path)) k log :
  Forall (λ b, ∃ data', tensor_to b.1 = Ok data'
                        ∧ training_step model opt data' = Ok ()) bs →
  for_fold (λ _ '(i, (data, _)),
      data ← lift (tensor_to data);
      emit (EvTrainStep epoch i);;
      lift (training_step model opt data))
    () (imap (λ i x, ((k + i)%nat, x)) bs) log
  = (Ok (), log ++ imap (λ i _, EvTrainStep epoch (k + i)) bs).
Proof.
  intros Hbs. revert k log.
  induction Hbs as [|[data p] bs (data' & Hto & Hstep) _ IH]; intros k log.
  - cbn. by rewrite app_nil_r.
  - cbn [imap for_fold]. rewrite io_bind_assoc.
    cbn [fst] in Hto. rewrite (io_bind_lift_Ok _ data') by done.
    rewrite io_bind_assoc, io_bind_emit.
    rewrite (io_bind_lift_Ok _ ()) by done.
    rewrite (imap_ext _ (λ i x, ((S k + i)%nat, x))).
    2:{ intros i x _. cbn. f_equal. lia. }
    rewrite IH, <- (assoc_L (++)), Nat.add_0_r. do 2 f_equal. cbn. f_equal.
    apply imap_ext. intros i x _. cbn. f_equal. lia.
Qed.

Lemma train_epochs model opt (bs : list (tensor * path)) epochs log :
  Forall (λ b, ∃ data', tensor_to b.1 = Ok data'
                        ∧ training_step model opt data' = Ok ()) bs →
  for_fold (λ _ epoch,
      for_fold (λ _ '(i, (data, _)),
          data ← lift (tensor_to data);
          emit (EvTrainStep epoch i);;
          lift (training_step model opt data))
        () (enumerate bs);;
      emit (EvSave (save_file model)))
    () epochs log
  = (Ok (), log ++ (epochs ≫= epoch_events (save_file model) bs)).
Proof.
  intros Hbs. revert log. induction epochs as [|epoch epochs IH]; intros log.
  - cbn. by rewrite app_nil_r.
  - cbn [for_fold]. rewrite io_bind_assoc. unfold enumerate.
    pose proof (train_epoch_steps model opt epoch bs 0 log Hbs) as Hsteps.
    cbn [Nat.add] in Hsteps. rewrite io_bind_unfold, Hsteps.
    rewrite io_bind_emit, IH, bind_cons. unfold epoch_events at 2.
    by rewrite <- !(assoc_L (++)).
Qed.
End train_facts.

(** X6: when the dataset is in image mode, the constructor returns and every
    batch moves to the device and trains, [train] returns the constructed
    model, and what it did is: construct, then for each epoch 1..epoch_num in
    turn one training step per batch in order, followed by one save to
    [ckpts/<name>.pt]. *)
Theorem train_trace `{L : Library} opt datas model log :
  DataLoader opt false = Ok datas →
  mode (dataset datas) = "image" →
  construct opt = Ok model →
  Forall (λ b, ∃ data', tensor_to b.1 = Ok data'
                        ∧ training_step model opt data' = Ok ())
    (batches datas) →
  train opt log
  = (Ok model,
     log ++ EvConstruct model
            :: (seqZ 1 (epoch_num opt)
                ≫= epoch_events (save_file model) (batches datas))).
Proof.
  intros Hdl Hmode Hmodel Hbs. unfold train.
  rewrite (io_bind_lift_Ok _ datas) by done. rewrite decide_True by done.
  rewrite io_bind_assoc, (io_bind_lift_Ok _ model) by done.
  rewrite io_bind_assoc, io_bind_emit, io_bind_ret.
  rewrite io_bind_unfold, train_epochs by done.
  by rewrite <- (assoc_L (++)).
Qed.

Lemma train_trace_witness :
  ∃ model,
    construct test_options = Ok model
    ∧ train (L := shape_library) test_options []
      = (Ok model,
         [EvConstruct model;
          EvTrainStep 1 0; EvTrainStep 1 1; EvSave "ckpts/default_model.pt";
          EvTrainStep 2 0; EvTrainStep 2 1; EvSave "ckpts/default_model.pt"]).
Proof.
  eexists. split; [vm_compute; reflexivity|].
  eapply (train_trace (L := shape_library) test_options
            (MkLoader (MkDataset "image" (zero_frame ["a.png"; "b.png"] 0))
               [([1; 3; 8; 8], "a.png"); ([1; 3; 8; 8], "b.png")])).
  - reflexivity.
  - reflexivity.
  - vm_compute. reflexivity.
  - repeat constructor; eexists; split; reflexivity.
Defined.

(** X7: with [epoch_num] zero or negative, [train] in image mode returns the
    model as constructed: no batch is touched and nothing is saved, whatever
    the batches are. *)
Theorem train_no_epochs `{L : Library} opt datas model log :
  DataLoader opt false = Ok datas →
  mode (dataset datas) = "image" →
  construct opt = Ok model →
  epoch_num opt ≤ 0 →
  train opt log = (Ok model, log ++ [EvConstruct model]).
Proof.
  intros Hdl Hmode Hmodel Hn. unfold train.
  rewrite (io_bind_lift_Ok _ datas) by done. rewrite decide_True by done.
  rewrite io_bind_assoc, (io_bind_lift_Ok _ model) by done.
  rewrite io_bind_assoc, io_bind_emit, io_bind_ret.
  by rewrite seqZ_nil by done.
Qed.

Lemma train_no_epochs_witness :
  ∃ model,
    train (L := shape_library)
      (MkOptions [FilterSize 3 4 3 2 1]
         (VisualAAArgs None None (Some (8, 8)) None None) 0 1 false 5 3) []
    = (Ok model, [EvConstruct model]).
Proof.
  eexists.
  eapply (train_no_epochs (L := shape_library) _
            (MkLoader (MkDataset "image" (zero_frame ["a.png"; "b.png"] 0))
               [([1; 3; 8; 8], "a.png"); ([1; 3; 8; 8], "b.png")]) _ []).
  - reflexivity.
  - reflexivity.
  - vm_compute. reflexivity.
  - cbn. lia.
Defined.

(** X8: with a zero stride in [opt.visual_aa], [train] never returns a
    model and does nothing that is recorded: no construction completes, no
    training step is taken and nothing is saved.  This holds whatever the
    loader yields and whatever the mode is. *)
Theorem train_zero_stride `{L : Library} opt log r log' :
  Exists (λ f, fs_3 f = 0) (visual_aa opt) →
  train opt log = (r, log') →
  (∀ model, r ≠ Ok model) ∧ log' = log.
Proof.
  intros Hz. unfold train.
  assert (∀ model, construct opt ≠ Ok model) as Hc.
  { intros model (Hs & _)%init_inv.
    apply Exists_exists in Hz as (f & Hin & Hf).
    unfold strides_nonzero in Hs. rewrite Forall_forall in Hs. by apply (Hs f). }
  rewrite io_bind_unfold. unfold lift at 1.
  destruct (DataLoader opt false) as [datas|e]; [|by intros [= <- <-]].
  case_decide as Hmode.
  - rewrite io_bind_assoc, io_bind_unfold. unfold lift at 1.
    destruct (construct opt) as [model|e] eqn:Hmodel; [by destruct (Hc model)|].
    by intros [= <- <-].
  - rewrite io_bind_raise. by intros [= <- <-].
Qed.

Lemma train_zero_stride_witness :
  let run := train (L := shape_library)
               (MkOptions [FilterSize 3 4 3 2 1; FilterSize 4 8 3 0 1]
                  (VisualAAArgs None None (Some (8, 8)) None None) 2 1 false 5 3)
               [] in
  (∀ model, run.1 ≠ Ok model) ∧ run.2 = [].
Proof.
  intros run.
  apply (train_zero_stride (L := shape_library)
           (MkOptions [FilterSize 3 4 3 2 1; FilterSize 4 8 3 0 1]
              (VisualAAArgs None None (Some (8, 8)) None None) 2 1 false 5 3)
           [] run.1 run.2).
  - apply Exists_cons_tl, Exists_cons_hd. reflexivity.
  - vm_compute. reflexivity.
Defined.

(** the saves of [train] *)
Lemma train_emits_saves `{L : Library} opt :
  emits (λ e, ∀ file, e = EvSave file →
           file = "ckpts/" +:+ default "default_model" (kw_name (visual_aa_args opt))
                  +:+ ".pt")
    (train opt).
Proof.
  unfold train. apply emits_bind; [apply emits_lift|]. intros datas.
  apply emits_bind_strong.
  { destruct (decide _); solve_emits; done. }
  intros model (log & log' & Hmodel).
  assert (construct opt = Ok model) as Hc.
  { destruct (decide _); [|done].
    apply io_bind_Ok in Hmodel as (m & ? & [Hc ->]%io_lift_Ok & Hmodel).
    apply io_bind_Ok in Hmodel as (? & ? & _ & Hmodel).
    by apply io_ret_Ok in Hmodel as [-> _]. }
  apply construct_name in Hc.
  solve_emits; try done. intros file [= <-]. unfold save_file. by rewrite Hc.
Qed.

(** X9: whatever happens during training, every checkpoint [train] writes
    goes to the one file [ckpts/<name>.pt], [name] being the configured model
    name or ["default_model"]; and that file is [ckpts/default_model.pt], the
    one [generate_embeddings] tests for and loads, only if the name is
    ["default_model"]. *)
Theorem train_single_checkpoint `{L : Library} opt r trace file :
  train opt [] = (r, trace) →
  EvSave file ∈ trace →
  file = "ckpts/" +:+ default "default_model" (kw_name (visual_aa_args opt)) +:+ ".pt"
  ∧ (file = "ckpts/default_model.pt"
     ↔ default "default_model" (kw_name (visual_aa_args opt)) = "default_model").
Proof.
  intros Hrun Hin.
  destruct (train_emits_saves opt _ _ _ Hrun) as (new & -> & Hall).
  rewrite Forall_forall in Hall. pose proof (Hall _ Hin file eq_refl) as ->.
  split; [done|].
  apply (save_file_default
           (MkVisAutoEncoder (0, 0)
              (default "default_model" (kw_name (visual_aa_args opt))) [] [])).
Qed.

Lemma train_single_checkpoint_witness :
  let opt := MkOptions [FilterSize 3 4 3 2 1]
               (VisualAAArgs (Some "faces") None (Some (8, 8)) None None)
               2 1 false 5 3 in
  let run := train (L := shape_library) opt [] in
  EvSave "ckpts/faces.pt" ∈ run.2
  ∧ ("ckpts/faces.pt" = "ckpts/default_model.pt" ↔ "faces" = "default_model").
Proof.
  intros opt run.
  assert (EvSave "ckpts/faces.pt" ∈ run.2) as Hin.
  { vm_compute. do 3 apply list_elem_of_further. apply list_elem_of_here. }
  split; [exact Hin|].
  apply (train_single_checkpoint (L := shape_library) opt run.1 run.2
           "ckpts/faces.pt"); [|exact Hin].
  vm_compute. reflexivity.
Defined.

(** X10: if the training step of the very first batch raises, [train] raises
    the same exception having recorded the construction and that one step:
    no checkpoint is written. *)
Theorem train_first_step_raises `{L : Library} opt datas model data p rest data'
    e log :
  DataLoader opt false = Ok datas →
  mode (dataset datas) = "image" →
  construct opt = Ok model →
  0 < epoch_num opt →
  batches datas = (data, p) :: rest →
  tensor_to data = Ok data' →
  training_step model opt data' = Raise e →
  train opt log = (Raise e, log ++ [EvConstruct model; EvTrainStep 1 0]).
Proof.
  intros Hdl Hmode Hmodel Hn Hbs Hto Hstep. unfold train.
  rewrite (io_bind_lift_Ok _ datas) by done. rewrite decide_True by done.
  rewrite io_bind_assoc, (io_bind_lift_Ok _ model) by done.
  rewrite io_bind_assoc, io_bind_emit, io_bind_ret.
  rewrite seqZ_cons by done. rewrite Hbs. cbn [for_fold enumerate imap].
  rewrite !io_bind_assoc. rewrite (io_bind_lift_Ok _ data') by done.
  rewrite !io_bind_assoc, io_bind_emit, !io_bind_unfold. unfold lift at 1.
  rewrite Hstep. by rewrite <- (assoc_L (++)).
Qed.

Lemma train_first_step_raises_witness :
  ∃ model,
    construct test_options = Ok model
    ∧ train (L := failing_step_library) test_options []
      = (Raise (RuntimeError "out of memory"),
         [EvConstruct model; EvTrainStep 1 0]).
Proof.
  eexists. split; [vm_compute; reflexivity|].
  eapply (train_first_step_raises (L := failing_step_library) test_options
            (MkLoader (MkDataset "image" (zero_frame ["a.png"; "b.png"] 0))
               [([1; 3; 8; 8], "a.png"); ([1; 3; 8; 8], "b.png")])
            _ [1; 3; 8; 8] "a.png" [([1; 3; 8; 8], "b.png")] [1; 3; 8; 8]
            (RuntimeError "out of memory") []).
  - reflexivity.
  - reflexivity.
  - vm_compute. reflexivity.
  - cbn. lia.
  - reflexivity.
  - reflexivity.
  - reflexivity.
Defined.

(** * Further properties of [generate_embeddings] *)

Lemma generate_embeddings_quick_raises_witness :
  generate_embeddings (L := shape_library) test_options true false false true true []
  ≠ (Ok (MkLoader (MkDataset "image" (zero_frame [] 0)) [], None), []).
Proof.
  apply (generate_embeddings_quick_raises (L := shape_library)). reflexivity.
Defined.

Section branch_facts.
Context `{L : Library}.

(** the calls [generate_embeddings] can record, by the branch that makes them *)
Lemma generate_embeddings_emits_gated (P : event → Prop) opt ckpt_exists
    encodings_exist retrain reencode quick :
  (∀ self, P (EvConstruct self)) →
  (retrain || negb ckpt_exists = true →
   (∀ epoch i, P (EvTrainStep epoch i)) ∧ (∀ file, P (EvSave file))) →
  (retrain || negb ckpt_exists = false → P (EvLoadState "ckpts/default_model.pt")) →
  (reencode || negb encodings_exist = true →
   P EvEncode ∧ ∀ df, P (EvToCsv "data/encodings.csv" df)) →
  P (EvLLE (lll_neighbors opt) 3) →
  P (EvKMeans (n_clusters opt)) →
  (∀ i, P (EvDecode i)) →
  (∀ df, P (EvToCsv "data/embeddings.csv" df)) →
  emits P (generate_embeddings opt ckpt_exists encodings_exist retrain reencode quick).
Proof.
  intros HC HT HL HE HLLE HK HD HCsv. unfold generate_embeddings.
  apply emits_bind.
  { destruct (retrain || negb ckpt_exists) eqn:Hcond.
    - destruct (HT eq_refl). by apply train_emits.
    - solve_emits; auto. }
  intros model. apply emits_bind; [apply emits_lift|]. intros datas.
  apply emits_bind.
  { destruct (reencode || negb encodings_exist) eqn:Hcond.
    - destruct (HE eq_refl). solve_emits; auto.
    - solve_emits. }
  intros [encodings initial_shape].
  apply emits_bind; [by apply emits_emit|]. intros _.
  apply emits_bind; [apply emits_lift|]. intros [embeds err].
  apply emits_bind; [by apply emits_emit|]. intros _.
  apply emits_bind; [apply emits_lift|]. intros [[centroids labels] inertia].
  apply emits_bind.
  { destruct (reencode && negb quick); [|apply emits_ret].
    apply emits_bind; [apply emits_lift|]. intros shape.
    apply emits_bind; [|intros; apply emits_ret].
    by apply decode_images_emits. }
  intros label_images. solve_emits; auto.
Qed.
End branch_facts.

(** X12: [generate_embeddings] trains only if [retrain] is set or the
    checkpoint is missing.  With an existing checkpoint and [retrain] false
    no training step and no save is recorded in any run, and loading happens
    only in that case, always from [ckpts/default_model.pt]. *)
Theorem checkpoint_reused `{L : Library} opt ckpt_exists encodings_exist retrain
    reencode quick r trace :
  generate_embeddings opt ckpt_exists encodings_exist retrain reencode quick []
  = (r, trace) →
  (∀ epoch i, EvTrainStep epoch i ∈ trace → retrain = true ∨ ckpt_exists = false)
  ∧ (∀ file, EvSave file ∈ trace → retrain = true ∨ ckpt_exists = false)
  ∧ (∀ file, EvLoadState file ∈ trace →
       retrain = false ∧ ckpt_exists = true ∧ file = "ckpts/default_model.pt").
Proof.
  intros Hrun.
  pose proof (generate_embeddings_emits_gated
    (λ e, match e with
          | EvTrainStep _ _ | EvSave _ => retrain = true ∨ ckpt_exists = false
          | EvLoadState file =>
              retrain = false ∧ ckpt_exists = true ∧ file = "ckpts/default_model.pt"
          | _ => True
          end)
    opt ckpt_exists encodings_exist retrain reencode quick) as Hemits.
  destruct (Hemits ltac:(done)
              ltac:(by destruct retrain, ckpt_exists; cbn; intros; split; intros; auto)
              ltac:(by destruct retrain, ckpt_exists)
              ltac:(done) ltac:(done) ltac:(done) ltac:(done) ltac:(done)
              _ _ _ Hrun) as (new & -> & Hall).
  rewrite Forall_forall in Hall.
  split_and!; intros; by apply (Hall _ ltac:(eassumption)).
Qed.

Lemma checkpoint_reused_witness :
  let run := generate_embeddings (L := shape_library) test_options true false
               false false false [] in
  (∀ epoch i, EvTrainStep epoch i ∈ run.2 → false = true ∨ true = false)
  ∧ (∀ file, EvSave file ∈ run.2 → false = true ∨ true = false)
  ∧ (∀ file, EvLoadState file ∈ run.2 →
       false = false ∧ true = true ∧ file = "ckpts/default_model.pt").
Proof.
  intros run.
  apply (checkpoint_reused (L := shape_library) test_options true false false
           false false run.1 run.2).
  vm_compute. reflexivity.
Defined.

(** X13: [generate_embeddings] encodes only if [reencode] is set or
    [data/encodings.csv] is missing.  With cached encodings and [reencode]
    false no image goes through the encoder and the cache file is not
    written, in any run. *)
Theorem encodings_reused `{L : Library} opt ckpt_exists encodings_exist retrain
    reencode quick r trace :
  generate_embeddings opt ckpt_exists encodings_exist retrain reencode quick []
  = (r, trace) →
  (EvEncode ∈ trace → reencode = true ∨ encodings_exist = false)
  ∧ (∀ df, EvToCsv "data/encodings.csv" df ∈ trace →
       reencode = true ∨ encodings_exist = false).
Proof.
  intros Hrun.
  pose proof (generate_embeddings_emits_gated
    (λ e, match e with
          | EvEncode => reencode = true ∨ encodings_exist = false
          | EvToCsv file _ =>
              file = "data/encodings.csv" →
              reencode = true ∨ encodings_exist = false
          | _ => True
          end)
    opt ckpt_exists encodings_exist retrain reencode quick) as Hemits.
  destruct (Hemits ltac:(done) ltac:(done) ltac:(done)
              ltac:(by destruct reencode, encodings_exist; cbn; intros; split; intros; auto)
              ltac:(done) ltac:(done) ltac:(done) ltac:(done)
              _ _ _ Hrun) as (new & -> & Hall).
  rewrite Forall_forall in Hall. split.
  - intros Hin. by apply (Hall _ Hin).
  - intros df Hin. by apply (Hall _ Hin).
Qed.

Lemma encodings_reused_witness :
  let run := generate_embeddings (L := shape_library) test_options true true
               false false true [] in
  (EvEncode ∈ run.2 → false = true ∨ true = false)
  ∧ (∀ df, EvToCsv "data/encodings.csv" df ∈ run.2 →
       false = true ∨ true = false).
Proof.
  intros run.
  apply (encodings_reused (L := shape_library) test_options true true false
           false true run.1 run.2).
  vm_compute. reflexivity.
Defined.

(** * Further properties of [decode_images] and [encode_image] *)

Lemma dict_set_fresh {K V : Type} `{EqDecision K} (k : K) (v : V) d :
  k ∉ d.*1 → dict_set k v d = d ++ [(k, v)].
Proof.
  induction d as [|[k' v'] d IH]; cbn; [done|].
  intros Hni. apply not_elem_of_cons in Hni as [Hne Hni].
  rewrite decide_False by done. by rewrite IH.
Qed.

Lemma label_name_inj (i j : nat) :
  "label_" +:+ pretty i = "label_" +:+ pretty j → i = j.
Proof. intros Heq. cbn [String.append] in Heq. by simplify_eq. Qed.

Section decode_facts.
Context `{L : Library}.

Lemma decode_images_from out_shape model k image_list centroids images log :
  (∀ name, name ∈ image_list.*1 →
           ∃ j, (j < k)%nat ∧ name = "label_" +:+ pretty j) →
  Forall2 (decodes_to out_shape model) centroids images →
  for_fold (λ image_list '(i, encoded_image),
      encoded_image ← lift (tensor_reshape encoded_image out_shape);
      _ ← lift (tensor_to encoded_image);
      emit (EvDecode i);;
      image ← lift (module_forward (self_decoder model) encoded_image);
      let name := "label_" +:+ pretty i in
      mret (dict_set name image image_list))
    image_list (imap (λ i x, ((k + i)%nat, x)) centroids) log
  = (Ok (image_list
         ++ imap (λ i img, ("label_" +:+ pretty (k + i)%nat, img)) images),
     log ++ imap (λ i _, EvDecode (k + i)) images).
Proof.
  intros Hnames Hall. revert k image_list log Hnames.
  induction Hall as [|c img cs imgs (c' & Hre & [t Hto] & Hfw) _ IH];
    intros k image_list log Hnames.
  - cbn. by rewrite !app_nil_r.
  - cbn [imap for_fold]. rewrite io_bind_assoc.
    rewrite (io_bind_lift_Ok _ c') by done.
    rewrite io_bind_assoc, (io_bind_lift_Ok _ t) by done.
    rewrite io_bind_assoc, io_bind_emit.
    rewrite io_bind_assoc, (io_bind_lift_Ok _ img) by done.
    rewrite io_bind_ret.
    rewrite (imap_ext _ (λ i x, ((S k + i)%nat, x))).
    2:{ intros i x _. cbn. f_equal. lia. }
    rewrite dict_set_fresh.
    2:{ intros (j & Hj & Heq)%Hnames. apply label_name_inj in Heq. lia. }
    rewrite IH.
    2:{ intros name. rewrite fmap_app, elem_of_app. intros [Hin|Hin].
        - destruct (Hnames _ Hin) as (j & Hj & ->). exists j. split; [lia|done].
        - cbn in Hin. apply list_elem_of_singleton in Hin as ->.
          exists (k + 0)%nat. split; [lia|done]. }
    rewrite <- !(assoc_L (++)). cbn [imap app].
    f_equal; [f_equal|]; f_equal; f_equal; apply imap_ext; intros i x _;
      unfold compose; by replace (S k + i)%nat with (k + S i)%nat by lia.
Qed.
End decode_facts.

(** X14: when every centroid reshapes to [out_shape], moves to the device
    and goes through the decoder, [decode_images] returns the decoded images
    in the order of the centroids, the i-th under the name [label_i], having
    called the decoder once per centroid. *)
Theorem decode_images_labels `{L : Library} centroids images out_shape model log :
  Forall2 (decodes_to out_shape model) centroids images →
  decode_images centroids out_shape model log
  = (Ok (imap (λ i img, ("label_" +:+ pretty i, img)) images),
     log ++ imap (λ i _, EvDecode i) images).
Proof.
  intros Hall.
  apply (decode_images_from out_shape model 0 [] centroids images log);
    [|done].
  by intros name ?%elem_of_nil.
Qed.

Lemma decode_images_labels_witness :
  ∃ model,
    construct test_options = Ok model
    ∧ decode_images (L := shape_library) [[64]; [64]] [1; 4; 4; 4] model []
      = (Ok [("label_0", [1; 3; 8; 8]); ("label_1", [1; 3; 8; 8])],
         [EvDecode 0; EvDecode 1]).
Proof.
  eexists. split; [vm_compute; reflexivity|].
  apply (decode_images_labels (L := shape_library) [[64]; [64]]
           [[1; 3; 8; 8]; [1; 3; 8; 8]] [1; 4; 4; 4] _ []).
  repeat constructor;
    (eexists; split_and!; [reflexivity|by eexists|vm_compute; reflexivity]).
Defined.

(** X15: encoding an image with [quick] false and decoding the flat vector
    with the shape [encode_image] returned gives what the decoder makes of
    the encoder's output, when reshaping to that shape undoes the
    flattening. *)
Theorem encode_decode_round_trip `{L : Library} model image encoding vector
    moved out log :
  module_forward (self_encoder model) image = Ok encoding →
  tensor_reshape encoding [-1] = Ok vector →
  tensor_reshape vector (tensor_shape encoding) = Ok encoding →
  tensor_to encoding = Ok moved →
  module_forward (self_decoder model) encoding = Ok out →
  encode_image model image false = Ok (vector, tensor_shape encoding)
  ∧ decode_images [vector] (tensor_shape encoding) model log
    = (Ok [("label_0", out)], log ++ [EvDecode 0]).
Proof.
  intros Henc Hflat Hback Hto Hdec. split.
  - unfold encode_image. rewrite Henc. cbn. rewrite Hflat. done.
  - apply (decode_images_from (tensor_shape encoding) model 0 [] [vector] [out] log).
    + by intros name ?%elem_of_nil.
    + repeat constructor. exists encoding. split_and!; [done|by exists moved|done].
Qed.

Lemma encode_decode_round_trip_witness :
  ∃ model,
    construct test_options = Ok model
    ∧ encode_image (L := shape_library) model [1; 3; 8; 8] false
      = Ok ([64], [1; 4; 4; 4])
    ∧ decode_images (L := shape_library) [[64]] [1; 4; 4; 4] model []
      = (Ok [("label_0", [1; 3; 8; 8])], [EvDecode 0]).
Proof.
  eexists. split; [vm_compute; reflexivity|].
  apply (encode_decode_round_trip (L := shape_library) _ [1; 3; 8; 8]
           [1; 4; 4; 4] [64] [1; 4; 4; 4] [1; 3; 8; 8] []);
    vm_compute; reflexivity.
Defined.

Section run_facts.
Context `{L : Library}.

(** what [decode_images] went through when it returns *)
Lemma decode_images_from_Ok out_shape model k image_list centroids r log log' :
  for_fold (λ image_list '(i, encoded_image),
      encoded_image ← lift (tensor_reshape encoded_image out_shape);
      _ ← lift (tensor_to encoded_image);
      emit (EvDecode i);;
      image ← lift (module_forward (self_decoder model) encoded_image);
      let name := "label_" +:+ pretty i in
      mret (dict_set name image image_list))
    image_list (imap (λ i x, ((k + i)%nat, x)) centroids) log
  = (Ok r, log') →
  ∃ images, Forall2 (decodes_to out_shape model) centroids images.
Proof.
  revert k image_list log. induction centroids as [|c cs IH];
    intros k image_list log Hrun.
  - by exists [].
  - cbn [imap for_fold] in Hrun.
    apply io_bind_Ok in Hrun as (image_list' & log1 & Hbody & Hrun).
    apply io_bind_Ok in Hbody as (c' & ? & [Hre ->]%io_lift_Ok & Hbody).
    apply io_bind_Ok in Hbody as (t & ? & [Hto ->]%io_lift_Ok & Hbody).
    apply io_bind_Ok in Hbody as (? & ? & _ & Hbody).
    apply io_bind_Ok in Hbody as (img & ? & [Hfw ->]%io_lift_Ok & _).
    rewrite (imap_ext _ (λ i x, ((S k + i)%nat, x))) in Hrun.
    2:{ intros i c0 _. cbn. f_equal. lia. }
    apply IH in Hrun as [images Hall]. exists (img :: images).
    constructor; [|done]. exists c'. split_and!; [done|by exists t|done].
Qed.

(** what the encoding loop of [generate_embeddings] went through when it
    finishes: one encoder call per batch, none of them with [quick] set *)
Lemma encode_loop_Ok model quick (bs : list (tensor * path)) st log st' log' :
  for_fold (λ st '(data, path),
      data ← lift (tensor_to data);
      emit EvEncode;;
      '(encoding, initial_shape) ← lift (encode_image model data quick);
      mret (EncLoopLocals (dict_set path encoding (el_encodings st))
              (Some encoding) (Some initial_shape)))
    st bs log
  = (Ok st', log') →
  log' = log ++ replicate (length bs) EvEncode
  ∧ (bs = [] → st' = st)
  ∧ (bs ≠ [] → quick = false).
Proof.
  revert st log. induction bs as [|[data p] bs IH]; intros st log Hrun.
  - apply io_ret_Ok in Hrun as [-> ->]. by rewrite app_nil_r.
  - cbn [for_fold] in Hrun.
    apply io_bind_Ok in Hrun as (st1 & log1 & Hbody & Hrun).
    apply io_bind_Ok in Hbody as (data' & ? & [_ ->]%io_lift_Ok & Hbody).
    apply io_bind_Ok in Hbody as (? & ? & ->%io_emit_Ok & Hbody).
    apply io_bind_Ok in Hbody as ([encoding shape] & ? & [Henc ->]%io_lift_Ok & Hbody).
    apply io_ret_Ok in Hbody as [_ ->].
    apply IH in Hrun as (-> & _ & _). split_and!.
    + by rewrite <- (assoc_L (++)).
    + done.
    + intros _. destruct quick; [|done].
      by apply encode_image_quick_not_Ok in Henc.
Qed.
End run_facts.

(** X16: the record of a run of [generate_embeddings] that returns.  After
    what obtaining the model recorded (the calls of [train], or one
    construction and one load of [ckpts/default_model.pt]) come, if it
    encodes, one encoder call per batch and the writing of
    [data/encodings.csv]; then the embedding and the clustering, both
    computed from the same array of encodings; then, if [reencode] is set,
    one decoder call per centroid; last the writing of
    [data/embeddings.csv].  A run that encodes and returns has [quick] false
    and at least one batch, and names the decoded centroids [label_0],
    [label_1], ... *)
Theorem returning_run_trace `{L : Library} opt ckpt_exists encodings_exist
    retrain reencode quick log datas label_images log' :
  generate_embeddings opt ckpt_exists encodings_exist retrain reencode quick log
  = (Ok (datas, label_images), log') →
  ∃ model pre encodings embeds err centroids labels inertia images,
    (if retrain || negb ckpt_exists
     then train opt log = (Ok model, log ++ pre)
     else construct opt = Ok model
          ∧ pre = [EvConstruct model; EvLoadState "ckpts/default_model.pt"])
    ∧ locally_linear_embedding (to_numpy encodings) (lll_neighbors opt) 3
      = Ok (embeds, err)
    ∧ k_means (to_numpy encodings) (n_clusters opt) = Ok (centroids, labels, inertia)
    ∧ (reencode || negb encodings_exist = true → quick = false ∧ batches datas ≠ [])
    ∧ length images = (if reencode then length centroids else 0%nat)
    ∧ label_images
      = (if reencode
         then Some (imap (λ i img, ("label_" +:+ pretty i, img)) images)
         else None)
    ∧ log'
      = log ++ pre
        ++ (if reencode || negb encodings_exist
            then replicate (length (batches datas)) EvEncode
                 ++ [EvToCsv "data/encodings.csv" encodings]
            else [])
        ++ [EvLLE (lll_neighbors opt) 3; EvKMeans (n_clusters opt)]
        ++ imap (λ i _, EvDecode i) images
        ++ [EvToCsv "data/embeddings.csv" (data (dataset datas))].
Proof.
  unfold generate_embeddings. intros Hrun.
  apply io_bind_Ok in Hrun as (model & log1 & Hmodel & Hrun).
  apply io_bind_Ok in Hrun as (datas0 & log2 & [Hdl ->]%io_lift_Ok & Hrun).
  apply io_bind_Ok in Hrun as ([encodings initial_shape] & log3 & Henc & Hrun).
  apply io_bind_Ok in Hrun as (? & log4 & ->%io_emit_Ok & Hrun).
  apply io_bind_Ok in Hrun as ([embeds err] & log5 & [Hlle ->]%io_lift_Ok & Hrun).
  apply io_bind_Ok in Hrun as (? & log6 & ->%io_emit_Ok & Hrun).
  apply io_bind_Ok in Hrun
    as ([[centroids labels] inertia] & log7 & [Hkm ->]%io_lift_Ok & Hrun).
  apply io_bind_Ok in Hrun as (label_images' & log8 & Hli & Hrun).
  apply io_bind_Ok in Hrun as (embeddings & log9 & [Hframe ->]%io_lift_Ok & Hrun).
  apply io_bind_Ok in Hrun as (dataset' & log10 & [Hjoin ->]%io_lift_Ok & Hrun).
  apply io_bind_Ok in Hrun as (? & log11 & ->%io_emit_Ok & Hrun).
  apply io_ret_Ok in Hrun as [[= -> ->] ->]. cbn [dataset batches data].
  assert (∃ pre, log1 = log ++ pre
                 ∧ if retrain || negb ckpt_exists
                   then train opt log = (Ok model, log ++ pre)
                   else construct opt = Ok model
                        ∧ pre = [EvConstruct model;
                                 EvLoadState "ckpts/default_model.pt"])
    as (pre & -> & Hpre).
  { destruct (retrain || negb ckpt_exists).
    - destruct (train_emits (λ _, True) opt ltac:(done) ltac:(done) ltac:(done)
                  _ _ _ Hmodel) as (pre & -> & _).
      by exists pre.
    - apply io_bind_Ok in Hmodel as (model' & ? & [Hc ->]%io_lift_Ok & Hmodel).
      apply io_bind_Ok in Hmodel as (? & ? & ->%io_emit_Ok & Hmodel).
      apply io_bind_Ok in Hmodel as (? & ? & ->%io_emit_Ok & Hmodel).
      apply io_bind_Ok in Hmodel as (? & ? & [_ ->]%io_lift_Ok & Hmodel).
      apply io_ret_Ok in Hmodel as [-> ->].
      eexists. split; [|done]. by rewrite <- (assoc_L (++)). }
  exists model, pre, encodings, embeds, err, centroids, labels, inertia.
  destruct (reencode || negb encodings_exist) eqn:Hcond.
  - apply io_bind_Ok in Henc as (st & log12 & Hloop & Henc).
    apply encode_loop_Ok in Hloop as (-> & Hempty & Hquick).
    apply io_bind_Ok in Henc as (encodings' & ? & [_ ->]%io_lift_Ok & Henc).
    apply io_bind_Ok in Henc as (? & ? & [Hbound ->]%io_lift_Ok & Henc).
    apply io_bind_Ok in Henc as (? & ? & [_ ->]%io_lift_Ok & Henc).
    apply io_bind_Ok in Henc as (? & ? & ->%io_emit_Ok & Henc).
    apply io_ret_Ok in Henc as [[= -> ->] ->].
    assert (batches datas0 ≠ []) as Hne.
    { intros Hnil. by rewrite (Hempty Hnil) in Hbound. }
    rewrite (Hquick Hne) in Hli. rewrite andb_true_r in Hli.
    destruct reencode.
    + apply io_bind_Ok in Hli as (shape & ? & [_ ->]%io_lift_Ok & Hli).
      apply io_bind_Ok in Hli as (images' & ? & Hdec & Hli).
      apply io_ret_Ok in Hli as [-> ->].
      destruct (decode_images_from_Ok shape model 0 [] centroids _ _ _ Hdec)
        as [images Hall].
      pose proof (decode_images_from shape model 0 [] centroids images
                    (((((log ++ pre) ++ replicate (length (batches datas0)) EvEncode)
                         ++ [EvToCsv "data/encodings.csv" encodings'])
                        ++ [EvLLE (lll_neighbors opt) 3])
                       ++ [EvKMeans (n_clusters opt)])
                    ltac:(by intros name ?%elem_of_nil) Hall) as Hform.
      pose proof (eq_trans (eq_sym Hdec) Hform) as [= -> ->]. exists images.
      split_and!; try done; [by auto|by apply Forall2_length in Hall|].
      by rewrite <- !(assoc_L (++)).
    + apply io_ret_Ok in Hli as [-> ->]. exists [].
      split_and!; try done; [by auto|]. by rewrite <- !(assoc_L (++)).
  - apply orb_false_elim in Hcond as [-> _]. cbn [andb] in Hli.
    apply io_ret_Ok in Hli as [-> ->].
    apply io_bind_Ok in Henc as (encodings' & ? & [_ ->]%io_lift_Ok & Henc).
    apply io_ret_Ok in Henc as [[= -> ->] ->]. exists [].
    split_and!; try done. by rewrite <- !(assoc_L (++)).
Qed.

Lemma returning_run_trace_witness :
  let run := generate_embeddings (L := shape_library) test_options true false
               false true false [] in
  ∃ datas label_images model encodings (images : list (list Z)),
    run.1 = Ok (datas, label_images)
    ∧ length images = 3%nat
    ∧ run.2
      = [EvConstruct model; EvLoadState "ckpts/default_model.pt"]
        ++ (replicate (length (batches datas)) EvEncode
            ++ [EvToCsv "data/encodings.csv" encodings])
        ++ [EvLLE 5 3; EvKMeans 3]
        ++ imap (λ i _, EvDecode i) images
        ++ [EvToCsv "data/embeddings.csv" (data (dataset datas))].
Proof.
  intros run.
  assert (∃ datas label_images, run = (Ok (datas, label_images), run.2))
    as (datas & label_images & Hrun).
  { do 2 eexists. vm_compute. reflexivity. }
  destruct (returning_run_trace (L := shape_library) test_options true false
              false true false [] datas label_images run.2 Hrun)
    as (model & pre & encodings & embeds & err & centroids & labels & inertia
        & images & [_ ->] & _ & Hkm & _ & Hlen & _ & Htrace).
  exists datas, label_images, model, encodings, images. split_and!.
  - by rewrite Hrun.
  - etrans; [exact Hlen|]. injection Hkm as <- _ _. reflexivity.
  - exact Htrace.
Defined.

(** * Properties of [l_n_reg] *)

Lemma prefix_spec (needle s : string) :
  String.prefix needle s = true ↔ ∃ post, s = needle +:+ post.
Proof.
  revert s. induction needle as [|a needle IH]; intros s.
  - split; [intros _; by exists s|by destruct s].
  - destruct s as [|b s]; cbn.
    + split; [done|]. by intros [post ?].
    + destruct (Ascii.ascii_dec a b) as [->|Hne].
      * rewrite IH. split; intros [post Heq]; exists post;
          [by subst|by injection Heq].
      * split; [done|]. intros [post Heq]. by injection Heq.
Qed.

(** [contains] is Python's [needle in s] *)
Lemma contains_spec (needle s : string) :
  contains needle s = true ↔ ∃ pre post, s = pre +:+ needle +:+ post.
Proof.
  induction s as [|b s IH]; cbn [contains]; rewrite orb_true_iff, prefix_spec.
  - split.
    + intros [[post ->]|?]; [|done]. by exists "", post.
    + intros ([|c pre] & post & Heq); [|done]. left. by exists post.
  - rewrite IH. split.
    + intros [[post ->]|(pre & post & ->)]; [by exists "", post|].
      by exists (String b pre), post.
    + intros ([|c pre] & post & Heq).
      * left. by exists post.
      * right. exists pre, post. by injection Heq.
Qed.

(** X17: [l_n_reg] adds up, from [torch.tensor(0.)] and in the order of
    [named_parameters()], the norms of exactly the parameters whose name
    contains [weight]; a parameter with any other name, a bias for one,
    contributes nothing. *)
Theorem l_n_reg_weights_only {T P : Type} (zero : T) (add : T → T → T)
    (torch_norm : P → Z → T) (named_parameters : list (string * P)) (norm : Z) :
  l_n_reg zero add torch_norm named_parameters norm
  = foldl (λ reg_loss param, add reg_loss (torch_norm param norm)) zero
      (filter (λ np, contains "weight" np.1 = true) named_parameters).*2.
Proof.
  unfold l_n_reg. revert zero.
  induction named_parameters as [|[name param] ps IH]; intros zero; [done|].
  rewrite filter_cons. cbn [foldl fst snd].
  destruct (contains "weight" name) eqn:Hname.
  - rewrite decide_True by done. cbn [fmap list_fmap foldl snd]. apply IH.
  - rewrite decide_False by done. apply IH.
Qed.
